(** * YOLO WebSocket detection server: model and properties

    A shallow embedding of [Lab Manual/Lab 12/SERVER/server.py]: the class
    [YOLODetectionServer] with its frame pipeline [process_frame], its
    connection handler [handle_client] and its entry point [start], and the
    script's [main].

    The model:
    - numbers ([np.float32] and Python [float]) are [spec_float] values with
      the IEEE operations of the standard library;
    - the Python values that reach [json.dumps] are [pyobj] values;
    - the external collaborators (PIL, numpy, OpenCV, ultralytics, the clock,
      [json.dumps]) are the fields of the class [Collaborators];
    - the synchronous code runs in a state-and-exception monad [M] over
      [world], which holds the server object, standard output, the clock and
      a trace of events;
    - the coroutine [handle_client] is given twice: as the sequential
      function [handle_client], and as the state machine [hstep] that the
      asyncio event loop ([loop_step], [run_loop]) resumes, one handler at a
      time; the two agree ([run_handler_handle_client]).

    The file has the definitions first (the model, the vocabulary of the
    statements, a concrete set of collaborators), then the lemmas, then the
    properties of the specification, numbered as in the list of claims, and
    further properties of the code, numbered X2 to X16. *)

From Stdlib Require Import ZArith Lia SpecFloat.
From stdpp Require Import base option list gmap strings pretty.

Set Warnings "-register-all".
Local Open Scope Z_scope.

(** ** Numbers *)

Module Float.

(** [np.float32] values (box corners, confidences): IEEE binary32. *)
Definition prec32 : Z := 24.
Definition emax32 : Z := 128.
(** Python [float] values: IEEE binary64. *)
Definition prec64 : Z := 53.
Definition emax64 : Z := 1024.

Definition valid32 (x : spec_float) : bool := valid_binary prec32 emax32 x.
Definition valid64 (x : spec_float) : bool := valid_binary prec64 emax64 x.

(** [x2 - x1] on two [np.float32] scalars. *)
Definition sub32 (x y : spec_float) : spec_float := SFsub prec32 emax32 x y.
(** [a - b] on two Python floats. *)
Definition sub64 (x y : spec_float) : spec_float := SFsub prec64 emax64 x y.

(** [float(x)] on an [np.float32] (or a float32 tensor element): the same
    number in binary64. Every binary32 number is a binary64 number, so the
    rounding inside [binary_round] is exact here. *)
Definition float (x : spec_float) : spec_float :=
  match x with
  | S754_finite s m e => binary_round prec64 emax64 s m e
  | _ => x
  end.

Definition zero : spec_float := S754_zero false.
Definition one32 : spec_float := SFone prec32 emax32.
Definition one64 : spec_float := SFone prec64 emax64.

(** [0 <= x <= 1] at either width. *)
Definition in_unit32 (x : spec_float) : bool := SFleb zero x && SFleb x one32.
Definition in_unit64 (x : spec_float) : bool := SFleb zero x && SFleb x one64.

(** [x < 0]. *)
Definition negative (x : spec_float) : bool := SFltb x zero.

(** A binary32 number that is neither an infinity nor a NaN. *)
Definition finite32 (x : spec_float) : bool :=
  valid32 x &&
  match x with
  | S754_zero _ | S754_finite _ _ _ => true
  | _ => false
  end.

(** [r] is a finite number or an infinity of sign [s], with an exponent of
    at least [emin]. *)
Definition signed (s : bool) (emin : Z) (r : spec_float) : Prop :=
  (∃ m e, r = S754_finite s m e ∧ emin <= e) ∨ r = S754_infinity s.

End Float.

(** ** Python data *)

Definition bytes := list Byte.byte.

(** A WebSocket message as the handler receives it: [bytes] for a binary
    frame, [str] for a text frame. *)
Inductive message :=
| Binary (b : bytes)
| Text (s : string).

(** The size that the transport compares with [max_size]. *)
Definition message_size (m : message) : Z :=
  match m with
  | Binary b => Z.of_nat (length b)
  | Text s => Z.of_nat (String.length s)
  end.

(** Exceptions. Every value of [exn] is an instance of Python's [Exception];
    [ConnectionClosed] stands for [websockets.exceptions.ConnectionClosed] and
    its subclasses. *)
Inductive exc_class :=
| ConnectionClosed
| KeyError
| TypeError
| IndexError
| OtherException (name : string).

Record exn := Exn { exc_type : exc_class; exc_str : string }.

(** [isinstance(e, websockets.exceptions.ConnectionClosed)] *)
Definition is_ConnectionClosed (e : exn) : bool :=
  match exc_type e with
  | ConnectionClosed => true
  | _ => false
  end.

(** The values that [process_frame] builds and [json.dumps] serialises. A
    [dict] keeps its keys in insertion order. *)
Inductive pyobj :=
| PyStr (s : string)
| PyFloat (f : spec_float)
| PyList (l : list pyobj)
| PyDict (d : list (string * pyobj)).

(** [list(o.keys())] *)
Definition dict_keys (o : pyobj) : list string :=
  match o with
  | PyDict d => fst <$> d
  | _ => []
  end.

Fixpoint assoc (k : string) (d : list (string * pyobj)) : option pyobj :=
  match d with
  | [] => None
  | (k', v) :: d' => if String.eqb k k' then Some v else assoc k d'
  end.

(** [o[k]] for a dict [o]; [None] where Python raises [KeyError]. *)
Definition dict_get (k : string) (o : pyobj) : option pyobj :=
  match o with
  | PyDict d => assoc k d
  | _ => None
  end.

(** What a call does: it returns a value or raises. *)
Inductive outcome (A : Type) :=
| Returned (a : A)
| Raised (e : exn).
Arguments Returned {A} a.
Arguments Raised {A} e.

(** ** Detector output (ultralytics [Results] and [Boxes]) *)

(** One row of [results.boxes]: [xyxyn[0]] are the normalised corners
    [(x1, y1, x2, y2)], [cls[0]] the class index, [conf[0]] the confidence. *)
Record Box := {
  xyxyn0 : spec_float * spec_float * spec_float * spec_float;
  cls0 : Z;
  conf0 : spec_float
}.

(** [results.boxes] and the label table [results.names]. *)
Record Results := {
  boxes : list Box;
  names : gmap Z string
}.

(** ** External collaborators

    Each collaborator is a function of its arguments: the statements hold
    for every such function, call by call. What a library lets vary between
    two calls on the same argument (the address of the temporary [BytesIO]
    that PIL writes into the text of its exception, for one) is not told
    apart here, and no statement compares two calls. *)

Class Collaborators := {
  PILImage : Type;
  ndarray : Type;
  YOLO : Type;
(** [Image.open(BytesIO(b))] *)
  Image_open : bytes -> outcome PILImage;
(** [np.array(image)] *)
  np_array : PILImage -> outcome ndarray;
(** [cv2.cvtColor(frame, cv2.COLOR_RGB2BGR)] *)
  cv2_cvtColor_RGB2BGR : ndarray -> outcome ndarray;
(** [YOLO(model_path)] *)
  YOLO_load : string -> outcome YOLO;
(** [model(frame, verbose=False)] *)
  YOLO_call : YOLO -> ndarray -> outcome (list Results);
(** the value of the [n]-th call of [time.time()] *)
  time_time : nat -> spec_float;
(** [json.dumps(response)] *)
  json_dumps : pyobj -> string;
(** [repr(websocket)], by object identity *)
  repr_websocket : nat -> string
}.

(** ** Server state *)

(** Lines written to standard output by [print]. *)
Inductive log_line :=
| LogClientConnected (client_ip : string)
| LogClientDisconnected (client_ip : string)
| LogDetected (n : nat) (inference_time : spec_float)
| LogError (e : exn)
| LogModelLoaded (model_path : string)
| LogServerReady (port : Z)
| LogBanner (port : Z).

(** Observable events, in the order they happen. [EvRecv] and [EvSend] are a
    frame handed to the handler and a response handed to the peer;
    [EvModelEnter] and [EvModelExit] bracket the call of the detector. *)
Inductive event :=
| EvRecv (ws : nat) (m : message)
| EvSend (ws : nat) (payload : string)
| EvModelEnter
| EvModelExit.

Section Server.
Context `{Collaborators}.

(** The attributes of [self]. [clients] holds websocket objects, which hash
    by identity. *)
Record YOLODetectionServer := {
  port : Z;
  model : YOLO;
  clients : gset nat
}.

(** Everything a handler can read or change: the server object, standard
    output, the number of clock readings so far, and the trace of events. *)
Record world := {
  self : YOLODetectionServer;
  stdout : list log_line;
  clock : nat;
  trace : list event
}.

(** [__init__] (lines 18-31): the model is loaded, the client set is empty,
    two lines are printed. *)
Definition init (model_path : string) (port : Z)
  : outcome YOLODetectionServer * list log_line :=
  match YOLO_load model_path with
  | Raised e => (Raised e, [])
  | Returned detector =>
      (Returned {| port := port; model := detector; clients := ∅ |},
       [LogModelLoaded model_path; LogServerReady port])
  end.

(** The world with [self.clients] set to [c]. *)
Definition set_clients (c : gset nat) (w : world) : world :=
  {| self := {| port := port (self w); model := model (self w); clients := c |};
     stdout := stdout w; clock := clock w; trace := trace w |}.

(** *** The monad of synchronous code *)

(** A computation reads and changes the world and returns or raises. *)
Definition M (A : Type) : Type := world -> outcome A * world.

#[export] Instance M_ret : MRet M := λ A a w, (Returned a, w).
#[export] Instance M_bind : MBind M := λ A B f m w,
  match m w with
  | (Returned a, w') => f a w'
  | (Raised e, w') => (Raised e, w')
  end.

(** [raise e] *)
Definition raise {A} (e : exn) : M A := λ w, (Raised e, w).

(** A call of a collaborator, which does not touch the world. *)
Definition lift {A} (o : outcome A) : M A := λ w, (o, w).

(** [try: m  except C as e: h e], where [catches e] tells whether [e] is an
    instance of [C]. *)
Definition try_except {A} (catches : exn -> bool) (m : M A) (h : exn -> M A) : M A :=
  λ w, match m w with
       | (Returned a, w') => (Returned a, w')
       | (Raised e, w') => if catches e then h e w' else (Raised e, w')
       end.

(** [try: m  finally: fin]: [fin] always runs; an exception of [fin]
    replaces the outcome of [m]. *)
Definition try_finally {A} (m : M A) (fin : M unit) : M A :=
  λ w, let '(r, w') := m w in
       match fin w' with
       | (Returned _, w'') => (r, w'')
       | (Raised e, w'') => (Raised e, w'')
       end.

(** [except Exception]: all of [exn]. What derives from [BaseException]
    only ([KeyboardInterrupt], [SystemExit], [asyncio.CancelledError]) is a
    signal to the process, not a failure of a collaborator, and is not a
    value of [exn]. *)
Definition isinstance_Exception (e : exn) : bool := true.

(** [print(...)] *)
Definition print (l : log_line) : M unit := λ w,
  (Returned tt,
   {| self := self w; stdout := stdout w ++ [l]; clock := clock w; trace := trace w |}).

(** Recording an event in the trace. *)
Definition emit (ev : event) : M unit := λ w,
  (Returned tt,
   {| self := self w; stdout := stdout w; clock := clock w; trace := trace w ++ [ev] |}).

(** [time.time()] *)
Definition time : M spec_float := λ w,
  (Returned (time_time (clock w)),
   {| self := self w; stdout := stdout w; clock := S (clock w); trace := trace w |}).

(** [self.model] *)
Definition get_model : M YOLO := λ w, (Returned (model (self w)), w).

(** [BytesIO(x)]: a [str] is not bytes-like. *)
Definition BytesIO (x : message) : outcome bytes :=
  match x with
  | Binary b => Returned b
  | Text _ => Raised (Exn TypeError "a bytes-like object is required, not 'str'")
  end.

(** [self.model(frame, verbose=False)] *)
Definition call_model (frame : ndarray) : M (list Results) :=
  detector ← get_model;
  emit EvModelEnter;;
  try_finally (lift (YOLO_call detector frame)) (emit EvModelExit).

(** [l[0]] *)
Definition getitem0 {A} (l : list A) : outcome A :=
  match l with
  | x :: _ => Returned x
  | [] => Raised (Exn IndexError "list index out of range")
  end.

(** [results.names[k]] *)
Definition names_getitem (results : Results) (k : Z) : outcome string :=
  match names results !! k with
  | Some s => Returned s
  | None => Raised (Exn KeyError (pretty k))
  end.

(** *** process_frame *)

(** The dict built for one box (lines 78-87). *)
Definition detection_of (results : Results) (box : Box) : outcome pyobj :=
  let '(x1, y1, x2, y2) := xyxyn0 box in
  match names_getitem results (cls0 box) with
  | Raised e => Raised e
  | Returned className =>
      Returned (PyDict [
        ("className", PyStr className);
        ("confidence", PyFloat (Float.float (conf0 box)));
        ("x", PyFloat (Float.float x1));
        ("y", PyFloat (Float.float y1));
        ("width", PyFloat (Float.float (Float.sub32 x2 x1)));
        ("height", PyFloat (Float.float (Float.sub32 y2 y1)))])
  end.

(** [for box in results.boxes: ... detections.append(detection)] *)
Fixpoint for_boxes (results : Results) (bs : list Box) (detections : list pyobj)
  : outcome (list pyobj) :=
  match bs with
  | [] => Returned detections
  | box :: rest =>
      match detection_of results box with
      | Raised e => Raised e
      | Returned detection => for_boxes results rest (detections ++ [detection])
      end
  end.

(** The dict of lines 97-101. *)
Definition success_response (detections : list pyobj) (inference_time : spec_float) : pyobj :=
  PyDict [("status", PyStr "success");
          ("detections", PyList detections);
          ("inference_time", PyFloat inference_time)].

(** The dict of lines 105-109. *)
Definition error_response (e : exn) : pyobj :=
  PyDict [("status", PyStr "error");
          ("message", PyStr (exc_str e));
          ("detections", PyList [])].

(** The [try] block of [process_frame] (lines 63-101). *)
Definition process_frame_try (image_bytes : message) : M pyobj :=
  start_time ← time;
  buf ← lift (BytesIO image_bytes);
  image ← lift (Image_open buf);
  frame ← lift (np_array image);
  frame ← lift (cv2_cvtColor_RGB2BGR frame);
  results_list ← call_model frame;
  results ← lift (getitem0 results_list);
  detections ← lift (for_boxes results (boxes results) []);
  now ← time;
  let inference_time := Float.sub64 now start_time in
  (match detections with
   | [] => mret tt
   | _ => print (LogDetected (length detections) inference_time)
   end);;
  mret (success_response detections inference_time).

(** [process_frame] (lines 52-109). *)
Definition process_frame (image_bytes : message) : M pyobj :=
  try_except isinstance_Exception
    (process_frame_try image_bytes)
    (λ e, print (LogError e);; mret (error_response e)).

(** The stages of the [try] block on their own, for statements about a
    frame that fails to decode or a detector that fails. *)

(** Lines 66-68 on their own: the decode stage of [process_frame]. *)
Definition decode (image_bytes : message) : outcome ndarray :=
  match BytesIO image_bytes with
  | Raised e => Raised e
  | Returned buf =>
      match Image_open buf with
      | Raised e => Raised e
      | Returned image =>
          match np_array image with
          | Raised e => Raised e
          | Returned frame => cv2_cvtColor_RGB2BGR frame
          end
      end
  end.

(** Line 71 on its own: the detection stage, on a decoded frame. *)
Definition detect (detector : YOLO) (frame : ndarray) : outcome Results :=
  match YOLO_call detector frame with
  | Raised e => Raised e
  | Returned results_list => getitem0 results_list
  end.

(** *** Connections *)

(** A websocket object as the handler sees it: its identity, its attributes
    ([remote_address] is the host and port of a TCP peer) and what the peer
    and the network will do on it. [ws_incoming] are the
    frames the peer sends, in order; [ws_close] is how the stream ends
    ([None]: the iteration stops, [Some e]: it raises [e]);
    [ws_send_result k] is the fate of the [k]-th [send] ([None]: it
    completes, [Some e]: it raises [e]). *)
Record WebSocket := {
  ws_id : nat;
  remote_address : string * Z;
  max_size : Z;
  ws_incoming : list message;
  ws_close : option exn;
  ws_send_result : nat -> option exn
}.

(** Modelled from the spec: the size check of the transport layer, which is
    the [websockets] library and not part of this repository. A frame is
    handed to the handler only when its size is at most the configured
    maximum. *)
Definition transport_accepts (max_size : Z) (m : message) : bool :=
  Z.leb (message_size m) max_size.

(** Modelled from the spec: the transport answers an oversized frame by
    failing the connection, which the handler observes as a read failure. *)
Definition message_too_big : exn := Exn ConnectionClosed "message too big".

(** The sends completed so far on connection [id] number the next one. *)
Definition is_send (id : nat) (ev : event) : bool :=
  match ev with
  | EvSend id' _ => Nat.eqb id id'
  | _ => false
  end.

Definition count_sent (id : nat) (t : list event) : nat :=
  length (List.filter (is_send id) t).

(** [await websocket.send(payload)] *)
Definition websocket_send (websocket : WebSocket) (payload : string) : M unit :=
  λ w, match ws_send_result websocket (count_sent (ws_id websocket) (trace w)) with
       | None => emit (EvSend (ws_id websocket) payload) w
       | Some e => (Raised e, w)
       end.

(** [async for message in websocket: body], run on the frames still to
    come. *)
Fixpoint async_for (websocket : WebSocket) (pending : list message)
    (body : message -> M unit) : M unit :=
  match pending with
  | [] =>
      match ws_close websocket with
      | None => mret tt
      | Some e => raise e
      end
  | message :: rest =>
      if transport_accepts (max_size websocket) message
      then emit (EvRecv (ws_id websocket) message);;
           body message;;
           async_for websocket rest body
      else raise message_too_big
  end.

(** [self.clients.add(websocket)] *)
Definition clients_add (websocket : WebSocket) : M unit :=
  λ w, (Returned tt, set_clients ({[ws_id websocket]} ∪ clients (self w)) w).

(** [self.clients.remove(websocket)]: [KeyError] when it is not a member. *)
Definition clients_remove (websocket : WebSocket) : M unit :=
  λ w, if decide (ws_id websocket ∈ clients (self w))
       then (Returned tt, set_clients (clients (self w) ∖ {[ws_id websocket]}) w)
       else (Raised (Exn KeyError (repr_websocket (ws_id websocket))), w).

(** *** handle_client *)

(** The body of the [async for] loop (lines 42-45). *)
Definition loop_body (websocket : WebSocket) (message : message) : M unit :=
  response ← process_frame message;
  websocket_send websocket (json_dumps response).

(** The [except websockets.exceptions.ConnectionClosed] clause and the
    [finally] clause around a block [m] (lines 47-50). *)
Definition guarded (websocket : WebSocket) (m : M unit) : M unit :=
  let client_ip := (remote_address websocket).1 in
  try_finally
    (try_except is_ConnectionClosed m
       (λ _, print (LogClientDisconnected client_ip)))
    (clients_remove websocket).

(** [handle_client] (lines 33-50), run from its first line to its return on
    a connection whose whole future is known. *)
Definition handle_client (websocket : WebSocket) : M unit :=
  let client_ip := (remote_address websocket).1 in
  print (LogClientConnected client_ip);;
  clients_add websocket;;
  guarded websocket
    (async_for websocket (ws_incoming websocket) (loop_body websocket)).

(** *** handle_client as a coroutine *)

(** Where the coroutine [handle_client] can be suspended: before its first
    step, in the [async for] waiting for a frame, and in
    [await websocket.send(...)]. [process_frame] contains no [await] on
    anything that suspends, so it runs inside one step. *)
Inductive hstate :=
| HStart
| HRecv (pending : list message)
| HSend (payload : string) (pending : list message)
| HDone (r : outcome unit).

(** The handler is between registration and removal. *)
Definition is_active (s : hstate) : bool :=
  match s with
  | HRecv _ | HSend _ _ => true
  | HStart | HDone _ => false
  end.

(** The handler has returned or raised. *)
Definition is_done (s : hstate) : bool :=
  match s with
  | HDone _ => true
  | _ => false
  end.

(** Leaving the [try] block with outcome [r]. *)
Definition leave (websocket : WebSocket) (r : outcome unit) (w : world) : hstate * world :=
  let '(r', w') := guarded websocket (lift r) w in (HDone r', w').

(** One resumption of the coroutine: from one suspension point to the
    next. *)
Definition hstep (websocket : WebSocket) (s : hstate) (w : world) : hstate * world :=
  match s with
  | HStart =>
      let client_ip := (remote_address websocket).1 in
      let '(_, w') := (print (LogClientConnected client_ip);;
                       clients_add websocket) w in
      (HRecv (ws_incoming websocket), w')
  | HRecv [] =>
      leave websocket
        (match ws_close websocket with None => Returned tt | Some e => Raised e end) w
  | HRecv (message :: rest) =>
      if transport_accepts (max_size websocket) message
      then
        match (emit (EvRecv (ws_id websocket) message);;
               response ← process_frame message;
               mret (json_dumps response)) w with
        | (Returned payload, w') => (HSend payload rest, w')
        | (Raised e, w') => leave websocket (Raised e) w'
        end
      else leave websocket (Raised message_too_big) w
  | HSend payload rest =>
      match websocket_send websocket payload w with
      | (Returned _, w') => (HRecv rest, w')
      | (Raised e, w') => leave websocket (Raised e) w'
      end
  | HDone r => (HDone r, w)
  end.

(** The coroutine run alone, [n] resumptions. *)
Fixpoint run_handler (n : nat) (websocket : WebSocket) (s : hstate) (w : world)
  : hstate * world :=
  match n with
  | O => (s, w)
  | S n' => let '(s', w') := hstep websocket s w in run_handler n' websocket s' w'
  end.

(** *** The event loop and start *)

(** A handler task of the event loop: its connection and where it is. *)
Record task := { t_ws : WebSocket; t_state : hstate }.

(** The event loop: the shared world and the tasks. *)
Record loop := { l_world : world; l_tasks : list task }.

(** The event loop resumes task [i]. *)
Definition loop_step (l : loop) (i : nat) : loop :=
  match l_tasks l !! i with
  | None => l
  | Some t =>
      let '(s', w') := hstep (t_ws t) (t_state t) (l_world l) in
      {| l_world := w';
         l_tasks := <[i := {| t_ws := t_ws t; t_state := s' |}]> (l_tasks l) |}
  end.

(** The event loop follows a schedule: the tasks it resumes, in order. *)
Definition run_loop (schedule : list nat) (l : loop) : loop :=
  foldl loop_step l schedule.

(** A peer that connects: what [websockets.serve] turns into a websocket
    object. *)
Record Peer := {
  peer_id : nat;
  peer_address : string * Z;
  peer_frames : list message;
  peer_close : option exn;
  peer_send_result : nat -> option exn
}.

(** The websocket object that [websockets.serve] makes of peer [p]. *)
Definition accept (max_size : Z) (p : Peer) : WebSocket :=
  {| ws_id := peer_id p; remote_address := peer_address p;
     max_size := max_size; ws_incoming := peer_frames p;
     ws_close := peer_close p; ws_send_result := peer_send_result p |}.

(** [websockets.serve(handler, host, port, max_size=...)]: one handler task
    per connection. *)
Definition serve (max_size : Z) (peers : list Peer) : list task :=
  (λ p, {| t_ws := accept max_size p; t_state := HStart |}) <$> peers.

(** [start] up to the point where the server listens (lines 113-125): the
    banner, then [websockets.serve] with [max_size=10*1024*1024]. *)
Definition listen (peers : list Peer) (w : world) : loop :=
  let '(_, w') := print (LogBanner (port (self w))) w in
  {| l_world := w'; l_tasks := serve (10 * 1024 * 1024) peers |}.

(** [start] (lines 111-126): the server runs until the schedule is used
    up. *)
Definition start (peers : list Peer) (schedule : list nat) (w : world) : loop :=
  run_loop schedule (listen peers w).

End Server.

(** ** Vocabulary of the statements *)

Section Vocabulary.
Context `{Collaborators}.

(** A computation respects [R] when [R] relates the world before it and
    the world after it. *)
Definition respects (R : world -> world -> Prop) {A} (m : M A) : Prop :=
  ∀ w, R w (m w).2.

(** Event lists in which every detector call is closed at once: nothing lies
    between an [EvModelEnter] and its [EvModelExit]. *)
Inductive bracketed : list event -> Prop :=
| bracketed_nil : bracketed []
| bracketed_recv id m t : bracketed t -> bracketed (EvRecv id m :: t)
| bracketed_send id p t : bracketed t -> bracketed (EvSend id p :: t)
| bracketed_model t : bracketed t -> bracketed (EvModelEnter :: EvModelExit :: t).

(** The events of the detector call. *)
Definition is_model_event (ev : event) : bool :=
  match ev with
  | EvModelEnter | EvModelExit => true
  | _ => false
  end.

(** The server object is the same. *)
Definition same_self (w w' : world) : Prop := self w' = self w.

(** The trace grew by detector calls only, each closed at once. *)
Definition model_events_only (w w' : world) : Prop :=
  ∃ evs, trace w' = trace w ++ evs ∧ bracketed evs ∧
         forallb is_model_event evs = true.

(** What the [except] clause makes of the outcome of the [try] block. *)
Definition settle (r : outcome unit) : outcome unit :=
  match r with
  | Returned _ => r
  | Raised e => if is_ConnectionClosed e then Returned tt else r
  end.

(** The transitions of the coroutine, with the events of each one. *)
Inductive hstep_rel (ws : WebSocket) : hstate -> list event -> hstate -> Prop :=
| hs_start :
    hstep_rel ws HStart [] (HRecv (ws_incoming ws))
| hs_close r :
    hstep_rel ws (HRecv []) [] (HDone r)
| hs_reject m rest r :
    transport_accepts (max_size ws) m = false ->
    hstep_rel ws (HRecv (m :: rest)) [] (HDone r)
| hs_frame m rest w0 response evs :
    transport_accepts (max_size ws) m = true ->
    (process_frame m w0).1 = Returned response ->
    bracketed evs ->
    forallb is_model_event evs = true ->
    hstep_rel ws (HRecv (m :: rest)) (EvRecv (ws_id ws) m :: evs)
              (HSend (json_dumps response) rest)
| hs_sent p rest :
    hstep_rel ws (HSend p rest) [EvSend (ws_id ws) p] (HRecv rest)
| hs_send_failed p rest k e r :
    ws_send_result ws k = Some e ->
    hstep_rel ws (HSend p rest) [] (HDone r)
| hs_done r :
    hstep_rel ws (HDone r) [] (HDone r).

(** Resumptions that bring any handler of [ws] to its end. *)
Definition handler_fuel (ws : WebSocket) : nat := 2 * length (ws_incoming ws) + 2.

(** Task [t] moved to state [s]. *)
Definition set_state (t : task) (s : hstate) : task :=
  {| t_ws := t_ws t; t_state := s |}.

(** The identity of the connection of task [t]. *)
Definition task_id (t : task) : nat := ws_id (t_ws t).

(** The connection that an event belongs to. *)
Definition event_conn (ev : event) : option nat :=
  match ev with
  | EvRecv id _ | EvSend id _ => Some id
  | EvModelEnter | EvModelExit => None
  end.

(** The events of connection [id] among [t], in order. *)
Definition conn_trace (id : nat) (t : list event) : list event :=
  filter (λ ev, event_conn ev = Some id) t.

(** A frame and the response sent for it. *)
Definition exchanges (id : nat) (ans : list (message * string)) : list event :=
  ans ≫= λ mp, [EvRecv id mp.1; EvSend id mp.2].

(** [p] is the serialised response of [process_frame] to [m]. *)
Definition answers (m : message) (p : string) : Prop :=
  ∃ w response, (process_frame m w).1 = Returned response ∧ p = json_dumps response.

(** What the events of a connection look like in each state of its
    handler. A handler that is done has answered every frame of the
    connection ([ci_done]), or it stopped at a frame that the transport
    rejected ([ci_rejected]) or at a send that failed ([ci_lost]). *)
Inductive conn_inv (ws : WebSocket) : hstate -> list event -> Prop :=
| ci_start :
    conn_inv ws HStart []
| ci_recv ans pending :
    ws_incoming ws = ans.*1 ++ pending ->
    Forall (λ mp, answers mp.1 mp.2) ans ->
    conn_inv ws (HRecv pending) (exchanges (ws_id ws) ans)
| ci_send ans m p pending :
    ws_incoming ws = ans.*1 ++ m :: pending ->
    Forall (λ mp, answers mp.1 mp.2) ans ->
    answers m p ->
    conn_inv ws (HSend p pending) (exchanges (ws_id ws) ans ++ [EvRecv (ws_id ws) m])
| ci_done ans r :
    ws_incoming ws = ans.*1 ->
    Forall (λ mp, answers mp.1 mp.2) ans ->
    conn_inv ws (HDone r) (exchanges (ws_id ws) ans)
| ci_rejected ans m rest r :
    ws_incoming ws = ans.*1 ++ m :: rest ->
    Forall (λ mp, answers mp.1 mp.2) ans ->
    transport_accepts (max_size ws) m = false ->
    conn_inv ws (HDone r) (exchanges (ws_id ws) ans)
| ci_lost ans m rest r k e :
    ws_incoming ws = ans.*1 ++ m :: rest ->
    Forall (λ mp, answers mp.1 mp.2) ans ->
    ws_send_result ws k = Some e ->
    conn_inv ws (HDone r) (exchanges (ws_id ws) ans ++ [EvRecv (ws_id ws) m]).

(** The invariant of a whole run: the websocket objects stay the ones that
    were accepted, and each connection satisfies [conn_inv]. *)
Definition tasks_inv (wss : list WebSocket) (tasks : list task) (evs : list event) : Prop :=
  t_ws <$> tasks = wss ∧
  ∀ i t, tasks !! i = Some t -> conn_inv (t_ws t) (t_state t) (conn_trace (task_id t) evs).

(** How often a run of the event loop takes [id] out of the client set. *)
Fixpoint loop_removals (id : nat) (schedule : list nat) (l : loop) : nat :=
  match schedule with
  | [] => O
  | i :: rest =>
      let l' := loop_step l i in
      (if decide (id ∈ clients (self (l_world l)) ∧ id ∉ clients (self (l_world l')))
       then 1 else 0)%nat + loop_removals id rest l'
  end.

(** The registry invariant of a run that started with the connections
    [wss] and the client set [c0]: a connection is a member exactly while
    its handler is active, nothing else changes, and [cnt] counts one removal
    for each handler that is done. *)
Definition reg_inv (c0 : gset nat) (wss : list WebSocket) (l : loop) (cnt : nat -> nat) : Prop :=
  t_ws <$> l_tasks l = wss ∧
  (∀ i t, l_tasks l !! i = Some t ->
          (task_id t ∈ clients (self (l_world l)) ↔ is_active (t_state t) = true) ∧
          cnt (task_id t) = if is_done (t_state t) then 1%nat else 0%nat) ∧
  (∀ x, x ∉ ws_id <$> wss -> x ∈ clients (self (l_world l)) ↔ x ∈ c0).

(** One when the step from [l] to [l'] takes [id] out of the client set. *)
Definition removed_by (id : nat) (l l' : loop) : nat :=
  if decide (id ∈ clients (self (l_world l)) ∧ id ∉ clients (self (l_world l')))
  then 1%nat else 0%nat.

(** The dict of one detection, as [process_frame] builds it. *)
Definition detection_shape (d : pyobj) : Prop :=
  ∃ className confidence x y width height,
    d = PyDict [("className", PyStr className);
                ("confidence", PyFloat confidence);
                ("x", PyFloat x);
                ("y", PyFloat y);
                ("width", PyFloat width);
                ("height", PyFloat height)].

(** The two dicts that [process_frame] returns. *)
Definition response_shape (r : pyobj) : Prop :=
  (∃ detections inference_time,
      r = PyDict [("status", PyStr "success");
                  ("detections", PyList detections);
                  ("inference_time", PyFloat inference_time)] ∧
      Forall detection_shape detections) ∨
  (∃ message,
      r = PyDict [("status", PyStr "error");
                  ("message", PyStr message);
                  ("detections", PyList [])]).

(** A sent payload is the serialisation of a response of either shape. *)
Definition sends_shaped (ev : event) : Prop :=
  match ev with
  | EvSend _ payload => ∃ r, payload = json_dumps r ∧ response_shape r
  | _ => True
  end.

(** So is the payload of a handler that is suspended in [send]. *)
Definition payload_shaped (s : hstate) : Prop :=
  match s with
  | HSend payload _ => ∃ r, payload = json_dumps r ∧ response_shape r
  | _ => True
  end.

(** A frame handed to a handler has at most [limit] bytes. *)
Definition recv_within (limit : Z) (ev : event) : Prop :=
  match ev with
  | EvRecv _ m => message_size m <= limit
  | _ => True
  end.

End Vocabulary.

(** ** Start-up

    [main] is the script's entry point: it reads the command line, reports
    the device, builds the server and starts it. *)

(** The namespace that [argparse] returns (lines 133-141): the values of
    [--model], [--port] and [--device]. *)
Record Args := {
  args_model : string;
  args_port : Z;
  args_device : string
}.

(** [torch.cuda] as [main] uses it, for the device line. What ultralytics
    makes of the same library when it picks the device of the model is part
    of [YOLO_load] and [YOLO_call]. *)
Class Torch := {
  cuda_is_available : bool;
  cuda_get_device_name : Z -> string
}.

(** The line that [main] prints about the device. *)
Inductive device_line :=
| LogUsingGPU (name : string)
| LogUsingCPU.

Section Main.
Context `{Collaborators} `{Torch}.

(** [args.device = device] *)
Definition set_device (device : string) (args : Args) : Args :=
  {| args_model := args_model args; args_port := args_port args; args_device := device |}.

(** Lines 145-149: the device line that is printed, and [args]
    afterwards. *)
Definition select_device (args : Args) : list device_line * Args :=
  if bool_decide (args_device args ≠ "cpu") && cuda_is_available
  then ([LogUsingGPU (cuda_get_device_name 0)], args)
  else ([LogUsingCPU], set_device "cpu" args).

(** The world in which a server that was just built starts: [out] is what
    [__init__] printed, the clock has not been read, nothing has happened. *)
Definition boot (server : YOLODetectionServer) (out : list log_line) : world :=
  {| self := server; stdout := out; clock := O; trace := [] |}.

(** [main] (lines 129-157) from the parsed arguments on: the device line,
    then the server is built from [args.model] and [args.port] and started.
    An exception of [__init__] ends [main]. *)
Definition main (args : Args) (peers : list Peer) (schedule : list nat)
  : list device_line * outcome loop :=
  let '(lines, args) := select_device args in
  match init (args_model args) (args_port args) with
  | (Raised e, _) => (lines, Raised e)
  | (Returned server, out) => (lines, Returned (start peers schedule (boot server out)))
  end.

End Main.

(** ** Vocabulary of the further statements *)

(** Neither an infinity nor a NaN. *)
Definition is_finite (x : spec_float) : bool :=
  match x with
  | S754_zero _ | S754_finite _ _ _ => true
  | _ => false
  end.

(** A finite binary64 number. *)
Definition finite64 (x : spec_float) : bool := Float.valid64 x && is_finite x.

(** [x] and [y] are the same number, whatever their formats: the same
    zero, infinity or NaN, or the same sign and the same magnitude
    [m * 2 ^ e], compared at the smaller of the two exponents. *)
Definition same_number (x y : spec_float) : Prop :=
  match x, y with
  | S754_zero s, S754_zero s' => s = s'
  | S754_infinity s, S754_infinity s' => s = s'
  | S754_nan, S754_nan => True
  | S754_finite s m e, S754_finite s' m' e' =>
      s = s' ∧ Z.pos m * 2 ^ (e - Z.min e e') = Z.pos m' * 2 ^ (e' - Z.min e e')
  | _, _ => False
  end.

Section FurtherVocabulary.
Context `{Collaborators}.

(** How the stream of [ws] ends once its frames are used up. *)
Definition close_outcome (ws : WebSocket) : outcome unit :=
  match ws_close ws with
  | None => Returned tt
  | Some e => Raised e
  end.

(** The lines that [process_frame] prints. *)
Definition is_frame_log (l : log_line) : bool :=
  match l with
  | LogDetected _ _ | LogError _ => true
  | _ => false
  end.

(** An upper bound of the resumptions that a handler in state [s] still
    takes. *)
Definition remaining (ws : WebSocket) (s : hstate) : nat :=
  match s with
  | HStart => 2 * length (ws_incoming ws) + 2
  | HRecv pending => 2 * length pending + 1
  | HSend _ pending => 2 * length pending + 2
  | HDone _ => 0
  end.

(** How often [schedule] resumes task [i]. *)
Definition resumptions (i : nat) (schedule : list nat) : nat :=
  length (filter (λ j, j = i) schedule).

End FurtherVocabulary.

(** ** A concrete set of collaborators

    A small decoder and detector on which the model can be run. Its
    buffers stand for image files and are not JPEG data: the empty buffer is
    no image and is refused as PIL refuses it, every other buffer is an image
    with one pixel per byte, and the detector reports one box per byte 1, 2
    or 3 of the frame. *)

Module Toy.

(** 0.25, 0.5 and 0.75 in binary32. *)
Definition f32_quarter : spec_float := S754_finite false 8388608 (-25).
Definition f32_half : spec_float := S754_finite false 8388608 (-24).
Definition f32_three_quarters : spec_float := S754_finite false 12582912 (-24).

(** Corners in order: x1 < x2 and y1 < y2. *)
Definition ordered_box : Box :=
  {| xyxyn0 := (f32_quarter, f32_quarter, f32_three_quarters, f32_three_quarters);
     cls0 := 0; conf0 := f32_half |}.

(** Corners out of order: x2 < x1 and y2 < y1. *)
Definition inverted_box : Box :=
  {| xyxyn0 := (f32_three_quarters, f32_three_quarters, f32_quarter, f32_quarter);
     cls0 := 0; conf0 := f32_half |}.

(** A class index that the label table lacks. *)
Definition unlabelled_box : Box :=
  {| xyxyn0 := (f32_quarter, f32_quarter, f32_three_quarters, f32_three_quarters);
     cls0 := 7; conf0 := f32_half |}.

(** What the detector sees in one byte of the frame. *)
Definition box_of_byte (b : Byte.byte) : option Box :=
  match b with
  | Byte.x01 => Some ordered_box
  | Byte.x02 => Some inverted_box
  | Byte.x03 => Some unlabelled_box
  | _ => None
  end.

(** The double quote character. *)
Definition quote : string := String (Ascii.ascii_of_nat 34) EmptyString.

(** A number as sign, mantissa and binary exponent. *)
Definition dumps_float (f : spec_float) : string :=
  match f with
  | S754_zero false => "0.0"
  | S754_zero true => "-0.0"
  | S754_infinity false => "Infinity"
  | S754_infinity true => "-Infinity"
  | S754_nan => "NaN"
  | S754_finite s m e =>
      (if s then "-" else "") +:+ pretty (Z.pos m) +:+ "p" +:+ pretty e
  end.

(** [", ".join(parts)] *)
Definition join (parts : list string) : string :=
  match parts with
  | [] => ""
  | p :: ps => foldl (λ acc q, acc +:+ ", " +:+ q) p ps
  end.

(** The layout of [json.dumps] with its default separators; numbers are
    written as mantissa and binary exponent, strings are not escaped. *)
Fixpoint dumps (o : pyobj) : string :=
  match o with
  | PyStr s => quote +:+ s +:+ quote
  | PyFloat f => dumps_float f
  | PyList l => "[" +:+ join (map dumps l) +:+ "]"
  | PyDict d =>
      "{" +:+ join (map (λ kv, quote +:+ fst kv +:+ quote +:+ ": " +:+ dumps (snd kv)) d) +:+ "}"
  end.

#[export] Instance collaborators : Collaborators := {|
  PILImage := bytes;
  ndarray := bytes;
  YOLO := unit;
  Image_open b :=
    match b with
    | [] => Raised (Exn (OtherException "UnidentifiedImageError")
                       "cannot identify image file")
    | _ => Returned b
    end;
  np_array image := Returned image;
  cv2_cvtColor_RGB2BGR frame := Returned frame;
  YOLO_load _ := Returned tt;
  YOLO_call _ frame :=
    Returned [{| boxes := omap box_of_byte frame; names := {[ 0 := "person" ]} |}];
  time_time n := binary_normalize Float.prec64 Float.emax64 (Z.of_nat n) 0 false;
  json_dumps := dumps;
  repr_websocket id := "<websocket " +:+ pretty id +:+ ">"
|}.

(** A server on the default port with no client, and a world around it. *)
Definition server : YOLODetectionServer :=
  {| port := 8765; model := tt; clients := ∅ |}.

Definition world0 : world :=
  {| self := server; stdout := []; clock := O; trace := [] |}.

(** A connection that delivers [frames], closes normally and never fails
    to send; and the peer behind it. *)
Definition websocket (id : nat) (frames : list message) : WebSocket :=
  {| ws_id := id; remote_address := ("192.168.100.20", 50000);
     max_size := 10 * 1024 * 1024; ws_incoming := frames;
     ws_close := None; ws_send_result := λ _, None |}.

Definition peer (id : nat) (frames : list message) : Peer :=
  {| peer_id := id; peer_address := ("192.168.100.20", 50000);
     peer_frames := frames; peer_close := None; peer_send_result := λ _, None |}.

(** A frame with an ordered and an inverted box, and what the pipeline
    makes of it. *)
Definition two_boxes : message := Binary [Byte.x01; Byte.x02].

Definition two_boxes_results : Results :=
  {| boxes := [ordered_box; inverted_box]; names := {[ 0 := "person" ]} |}.

Definition two_boxes_response : pyobj :=
  Eval vm_compute in
    match (process_frame two_boxes world0).1 with
    | Returned response => response
    | Raised _ => PyList []
    end.

Definition inverted_detection : pyobj :=
  Eval vm_compute in
    match detection_of two_boxes_results inverted_box with
    | Returned d => d
    | Raised _ => PyList []
    end.


(** Two peers with one frame each, and a schedule that serves them in
    turn. *)
Definition alice : Peer := peer 1 [Binary [Byte.x01]].
Definition bob : Peer := peer 2 [Binary [Byte.x02]].
Definition round_robin : list nat := [0; 1; 0; 1; 0; 1; 0; 1]%nat.

(** A connection with a limit of four bytes, already registered. *)
Definition small_websocket : WebSocket :=
  {| ws_id := 1; remote_address := ("192.168.100.20", 50000); max_size := 4;
     ws_incoming := []; ws_close := None; ws_send_result := λ _, None |}.

(** A frame above that limit. *)
Definition five_bytes : message :=
  Binary [Byte.x01; Byte.x01; Byte.x01; Byte.x01; Byte.x01].

(** A world in which connection 1 is registered. *)
Definition world1 : world :=
  {| self := {| port := 8765; model := tt; clients := {[ 1%nat ]} |};
     stdout := []; clock := O; trace := [] |}.

End Toy.

(** ** More concrete inputs: a machine without a GPU, and connections and
    frames for the further statements. *)

Module ToyMain.
Import Toy.

(** No CUDA device. *)
#[export] Instance torch : Torch := {|
  cuda_is_available := false;
  cuda_get_device_name _ := ""
|}.

(** The arguments when the command line gives none (lines 134-139). *)
Definition default_args : Args :=
  {| args_model := "yolov8n.pt"; args_port := 8765; args_device := "0" |}.

(** The world of the server that [main] builds from them. *)
Definition booted : world :=
  boot server [LogModelLoaded "yolov8n.pt"; LogServerReady 8765].

(** A frame with a box of an unlabelled class between two labelled ones,
    and what the detector returns for it. *)
Definition mixed_frame : message := Binary [Byte.x01; Byte.x03; Byte.x01].

Definition mixed_results : Results :=
  {| boxes := [ordered_box; unlabelled_box; ordered_box]; names := {[ 0 := "person" ]} |}.

(** A frame in which the detector finds nothing. *)
Definition blank_frame : message := Binary [Byte.x04].

Definition blank_results : Results :=
  {| boxes := []; names := {[ 0 := "person" ]} |}.

(** A connection on which every send fails because the peer is gone. *)
Definition lost : exn := Exn ConnectionClosed "no close frame received or sent".

Definition lossy_websocket : WebSocket :=
  {| ws_id := 1; remote_address := ("192.168.100.20", 50000);
     max_size := 10 * 1024 * 1024; ws_incoming := [];
     ws_close := None; ws_send_result := λ _, Some lost |}.

(** The task of [alice] before its first resumption. *)
Definition alice_task : task :=
  {| t_ws := accept (10 * 1024 * 1024) alice; t_state := HStart |}.

End ToyMain.

(** ** Reasoning about the monad *)

Section Effects.
Context `{Collaborators}.

(** A relation between the world before and after a computation, closed
    under sequencing: every computation built from parts that respect it
    respects it. *)
Variable R : world -> world -> Prop.
Hypothesis R_refl : ∀ w, R w w.
Hypothesis R_trans : ∀ w1 w2 w3, R w1 w2 -> R w2 w3 -> R w1 w3.

Lemma respects_ret {A} (a : A) : respects R (mret a).
Proof. intros w. apply R_refl. Qed.

Lemma respects_raise {A} (e : exn) : respects R (@raise _ A e).
Proof. intros w. apply R_refl. Qed.

Lemma respects_lift {A} (o : outcome A) : respects R (lift o).
Proof. intros w. apply R_refl. Qed.

Lemma respects_bind {A B} (m : M A) (f : A -> M B) :
  respects R m -> (∀ a, respects R (f a)) -> respects R (m ≫= f).
Proof.
  intros Hm Hf w. unfold mbind, M_bind.
  specialize (Hm w). destruct (m w) as [[a|e] w1]; simpl in *; [|done].
  eapply R_trans; [exact Hm|apply Hf].
Qed.

Lemma respects_try_except {A} (c : exn -> bool) (m : M A) (h : exn -> M A) :
  respects R m -> (∀ e, respects R (h e)) -> respects R (try_except c m h).
Proof.
  intros Hm Hh w. unfold try_except.
  specialize (Hm w). destruct (m w) as [[a|e] w1]; simpl in *; [done|].
  destruct (c e); [|done]. eapply R_trans; [exact Hm|apply Hh].
Qed.

Lemma respects_try_finally {A} (m : M A) (fin : M unit) :
  respects R m -> respects R fin -> respects R (try_finally m fin).
Proof.
  intros Hm Hf w. unfold try_finally.
  specialize (Hm w). destruct (m w) as [r w1]; simpl in *.
  specialize (Hf w1). destruct (fin w1) as [[[]|e] w2]; simpl in *;
    eapply R_trans; eauto.
Qed.

(** [process_frame] respects whatever its three effects respect: reading
    the clock, printing, and calling the detector. *)
Lemma respects_process_frame (image_bytes : message) :
  respects R time ->
  (∀ l, respects R (print l)) ->
  (∀ frame, respects R (call_model frame)) ->
  respects R (process_frame image_bytes).
Proof.
  intros Ht Hp Hc. unfold process_frame, process_frame_try.
  apply respects_try_except.
  - repeat (first [ apply Ht | apply Hp | apply Hc
                  | apply respects_lift | apply respects_ret
                  | apply respects_bind; [|intros ?]
                  | match goal with |- respects R (match ?x with _ => _ end) => destruct x end ]).
  - intros e. apply respects_bind; [apply Hp|intros ?; apply respects_ret].
Qed.

End Effects.

(** ** The frame pipeline *)

Lemma bracketed_app (t1 t2 : list event) :
  bracketed t1 -> bracketed t2 -> bracketed (t1 ++ t2).
Proof. induction 1; simpl; intros; try constructor; auto. Qed.

Lemma bracketed_enter (t pre post : list event) :
  bracketed t -> t = pre ++ EvModelEnter :: post ->
  ∃ post', post = EvModelExit :: post'.
Proof.
  intros Hb. revert pre. induction Hb; intros pre Heq.
  - by destruct pre.
  - destruct pre as [|ev pre]; simplify_eq/=. eauto.
  - destruct pre as [|ev pre]; simplify_eq/=. eauto.
  - destruct pre as [|ev pre]; simplify_eq/=; [eauto|].
    destruct pre as [|ev' pre]; simplify_eq/=. eauto.
Qed.

Section ProcessFrame.
Context `{Collaborators}.

Lemma same_self_trans w1 w2 w3 : same_self w1 w2 -> same_self w2 w3 -> same_self w1 w3.
Proof. unfold same_self. congruence. Qed.

Lemma model_events_only_refl w : model_events_only w w.
Proof. exists []. rewrite app_nil_r. repeat split. constructor. Qed.

Lemma model_events_only_trans w1 w2 w3 :
  model_events_only w1 w2 -> model_events_only w2 w3 -> model_events_only w1 w3.
Proof.
  intros (e1 & H1 & B1 & F1) (e2 & H2 & B2 & F2). exists (e1 ++ e2).
  rewrite H2, H1, <- app_assoc. split; [done|]. split; [by apply bracketed_app|].
  rewrite forallb_app. by rewrite F1, F2.
Qed.

Lemma process_frame_same_self image_bytes w :
  self (process_frame image_bytes w).2 = self w.
Proof.
  apply (respects_process_frame same_self).
  - done.
  - apply same_self_trans.
  - done.
  - done.
  - intros frame w0. unfold call_model, get_model, emit, try_finally, lift, same_self,
      mbind, M_bind. simpl. by destruct (YOLO_call (model (self w0)) frame).
Qed.

Lemma process_frame_model_events image_bytes w :
  model_events_only w (process_frame image_bytes w).2.
Proof.
  apply (respects_process_frame model_events_only).
  - apply model_events_only_refl.
  - apply model_events_only_trans.
  - intros w0. exists []. simpl. rewrite app_nil_r. repeat split. constructor.
  - intros l w0. exists []. simpl. rewrite app_nil_r. repeat split. constructor.
  - intros frame w0. exists [EvModelEnter; EvModelExit].
    unfold call_model, get_model, emit, try_finally, lift, mbind, M_bind. simpl.
    destruct (YOLO_call (model (self w0)) frame); simpl; rewrite <- app_assoc;
      (split; [done|]); (split; [repeat constructor|done]).
Qed.

(** [process_frame] returns: the value of its [try] block, or the error
    dict of the exception that the block raised. *)
Lemma process_frame_outcome image_bytes w :
  ∃ w', process_frame image_bytes w =
          (match (process_frame_try image_bytes w).1 with
           | Returned response => Returned response
           | Raised e => Returned (error_response e)
           end, w').
Proof.
  unfold process_frame, try_except.
  destruct (process_frame_try image_bytes w) as [[r|e] w1]; simpl; eauto.
Qed.

Lemma process_frame_returns image_bytes w :
  ∃ response w', process_frame image_bytes w = (Returned response, w').
Proof.
  destruct (process_frame_outcome image_bytes w) as [w' Hw'].
  rewrite Hw'. destruct (process_frame_try image_bytes w).1; eauto.
Qed.

(** The [try] block follows the stages: it raises what decode, detection
    or the mapping of the boxes raises, and returns the success dict
    otherwise. *)
Lemma process_frame_try_stages image_bytes w :
  (process_frame_try image_bytes w).1 =
    match decode image_bytes with
    | Raised e => Raised e
    | Returned frame =>
        match detect (model (self w)) frame with
        | Raised e => Raised e
        | Returned results =>
            match for_boxes results (boxes results) [] with
            | Raised e => Raised e
            | Returned detections =>
                Returned (success_response detections
                            (Float.sub64 (time_time (S (clock w))) (time_time (clock w))))
            end
        end
    end.
Proof.
  unfold process_frame_try, decode, detect, call_model, get_model, time, lift, emit,
    try_finally, mbind, M_bind. simpl.
  destruct (BytesIO image_bytes) as [buf|e]; [|done].
  destruct (Image_open buf) as [image|e]; [|done].
  destruct (np_array image) as [frame|e]; [|done].
  destruct (cv2_cvtColor_RGB2BGR frame) as [frame'|e]; [|done].
  destruct (YOLO_call _ frame') as [rl|e]; [|done].
  destruct (getitem0 rl) as [results|e]; [|done].
  destruct (for_boxes results (boxes results) []) as [ds|e]; [|done].
  by destruct ds.
Qed.

End ProcessFrame.

(** ** The connection handler *)

Section Handler.
Context `{Collaborators}.

Lemma guarded_lift ws r w :
  ∃ w', guarded ws (lift r) w =
          (if decide (ws_id ws ∈ clients (self w)) then settle r
           else Raised (Exn KeyError (repr_websocket (ws_id ws))), w') ∧
        trace w' = trace w ∧
        port (self w') = port (self w) ∧
        model (self w') = model (self w) ∧
        clients (self w') = clients (self w) ∖ {[ws_id ws]}.
Proof.
  unfold guarded, try_finally, try_except, lift, clients_remove, print, settle.
  destruct r as [[]|e]; simpl; [|destruct (is_ConnectionClosed e); simpl];
    (destruct (decide (ws_id ws ∈ clients (self w))) as [Hin|Hin]; simpl;
     eexists; (split; [reflexivity|]); simpl; repeat split;
     apply set_eq; intros x; rewrite elem_of_difference, elem_of_singleton;
     split; [intros Hx; split; [done|congruence]|by intros [??]]).
Qed.

Lemma leave_spec ws r w :
  ∃ r' w', leave ws r w = (HDone r', w') ∧
           trace w' = trace w ∧
           port (self w') = port (self w) ∧
           model (self w') = model (self w) ∧
           clients (self w') = clients (self w) ∖ {[ws_id ws]} ∧
           (ws_id ws ∈ clients (self w) -> r' = settle r).
Proof.
  unfold leave. destruct (guarded_lift ws r w) as (w' & -> & Ht & Hp & Hm & Hc).
  do 2 eexists. split; [reflexivity|]. repeat split; try done.
  intros Hin. by rewrite decide_True.
Qed.

(** One step of the loop body up to the suspension in [send]. *)
Lemma frame_step ws m w :
  ∃ response w',
    (emit (EvRecv (ws_id ws) m);;
     response ← process_frame m;
     mret (json_dumps response)) w = (Returned (json_dumps response), w') ∧
    process_frame m (emit (EvRecv (ws_id ws) m) w).2 = (Returned response, w') ∧
    self w' = self w ∧
    ∃ evs, trace w' = trace w ++ EvRecv (ws_id ws) m :: evs ∧
           bracketed evs ∧ forallb is_model_event evs = true.
Proof.
  unfold mbind, M_bind. simpl.
  set (w1 := {| self := self w; stdout := stdout w; clock := clock w;
                trace := trace w ++ [EvRecv (ws_id ws) m] |}).
  destruct (process_frame_returns m w1) as (r & w2 & Hr).
  pose proof (process_frame_same_self m w1) as Hs.
  pose proof (process_frame_model_events m w1) as (evs & Ht & Hb & Hf).
  rewrite Hr in *. simpl in *.
  exists r, w2. split; [done|]. split; [done|].
  split; [done|]. exists evs. rewrite Ht, <- app_assoc. done.
Qed.

(** Every resumption is a transition, and it changes [self] in one way
    only: the first one registers the connection, the last one removes
    it. *)
Lemma hstep_sound ws s w :
  ∃ evs, trace (hstep ws s w).2 = trace w ++ evs ∧
         hstep_rel ws s evs (hstep ws s w).1.
Proof.
  destruct s as [|[|m rest]|p rest|r]; simpl.
  - exists []. rewrite app_nil_r. split; [done|constructor].
  - destruct (leave_spec ws (match ws_close ws with None => Returned tt
                              | Some e => Raised e end) w)
      as (r' & w' & -> & Ht & _). exists []. rewrite app_nil_r. split; [done|constructor].
  - destruct (transport_accepts (max_size ws) m) eqn:Hacc.
    + destruct (frame_step ws m w) as (r & w' & -> & Hr & _ & evs & Ht & Hb & Hf).
      exists (EvRecv (ws_id ws) m :: evs). split; [done|].
      econstructor; [done| |done|done]. by rewrite Hr.
    + destruct (leave_spec ws (Raised message_too_big) w) as (r' & w' & -> & Ht & _).
      exists []. rewrite app_nil_r. split; [done|by constructor].
  - unfold websocket_send.
    destruct (ws_send_result ws (count_sent (ws_id ws) (trace w))) as [e|] eqn:Hs; simpl.
    + destruct (leave_spec ws (Raised e) w) as (r' & w' & -> & Ht & _).
      exists []. rewrite app_nil_r. split; [done|by econstructor].
    + eexists. split; [reflexivity|constructor].
  - exists []. rewrite app_nil_r. split; [done|constructor].
Qed.

Lemma hstep_self ws s w :
  port (self (hstep ws s w).2) = port (self w) ∧
  model (self (hstep ws s w).2) = model (self w) ∧
  clients (self (hstep ws s w).2) =
    match s with
    | HStart => {[ws_id ws]} ∪ clients (self w)
    | _ => if is_active s && is_done (hstep ws s w).1
           then clients (self w) ∖ {[ws_id ws]}
           else clients (self w)
    end.
Proof.
  destruct s as [|[|m rest]|p rest|r]; simpl.
  - done.
  - destruct (leave_spec ws (match ws_close ws with None => Returned tt
                              | Some e => Raised e end) w)
      as (r' & w' & -> & _ & Hp & Hm & Hc & _). done.
  - destruct (transport_accepts (max_size ws) m) eqn:Hacc.
    + destruct (frame_step ws m w) as (r & w' & -> & _ & Hs & _). simpl. by rewrite Hs.
    + by destruct (leave_spec ws (Raised message_too_big) w)
        as (r' & w' & -> & _ & Hp & Hm & Hc & _).
  - unfold websocket_send.
    destruct (ws_send_result ws (count_sent (ws_id ws) (trace w))) as [e|] eqn:Hs; simpl.
    + by destruct (leave_spec ws (Raised e) w) as (r' & w' & -> & _ & Hp & Hm & Hc & _).
    + done.
  - done.
Qed.

End Handler.

(** ** The coroutine and the sequential handler agree *)

Section Agreement.
Context `{Collaborators}.

Lemma run_handler_done n ws r w : run_handler n ws (HDone r) w = (HDone r, w).
Proof. induction n; simpl; auto. Qed.

Lemma guarded_bind_Returned {A} ws (m : M A) (f : A -> M unit) w a w1 :
  m w = (Returned a, w1) -> guarded ws (m ≫= f) w = guarded ws (f a) w1.
Proof.
  intros Hm. unfold guarded, try_finally, try_except, mbind, M_bind. by rewrite Hm.
Qed.

Lemma guarded_bind_Raised {A} ws (m : M A) (f : A -> M unit) w e w1 :
  m w = (Raised e, w1) -> guarded ws (m ≫= f) w = guarded ws (lift (Raised e)) w1.
Proof.
  intros Hm. unfold guarded, try_finally, try_except, lift, mbind, M_bind. by rewrite Hm.
Qed.

Lemma guarded_ext ws (m1 m2 : M unit) w :
  m1 w = m2 w -> guarded ws m1 w = guarded ws m2 w.
Proof. intros Hm. unfold guarded, try_finally, try_except. by rewrite Hm. Qed.

Lemma run_handler_recv ws pending n w :
  (2 * length pending + 1 <= n)%nat ->
  run_handler n ws (HRecv pending) w =
    let '(r, w') := guarded ws (async_for ws pending (loop_body ws)) w in (HDone r, w').
Proof.
  revert n w. induction pending as [|m rest IH]; intros n w Hn.
  - destruct n as [|n]; [simpl in Hn; lia|]. simpl.
    unfold leave.
    rewrite (guarded_ext ws (lift (match ws_close ws with None => Returned tt
                                   | Some e => Raised e end))
               (match ws_close ws with None => mret tt | Some e => raise e end));
      [|by destruct (ws_close ws)].
    destruct (guarded ws _ w) as [r w']. apply run_handler_done.
  - destruct n as [|[|n]]; [simpl in Hn; lia..|].
    assert (Hn' : (2 * length rest + 1 <= n)%nat) by (simpl in Hn; lia).
    change (run_handler (S (S n)) ws (HRecv (m :: rest)) w)
      with (let '(s', w') := hstep ws (HRecv (m :: rest)) w in
            let '(s'', w'') := hstep ws s' w' in run_handler n ws s'' w'').
    change (async_for ws (m :: rest) (loop_body ws))
      with (if transport_accepts (max_size ws) m
            then emit (EvRecv (ws_id ws) m);;
                 loop_body ws m;; async_for ws rest (loop_body ws)
            else raise message_too_big).
    change (hstep ws (HRecv (m :: rest)) w)
      with (if transport_accepts (max_size ws) m
            then match (emit (EvRecv (ws_id ws) m);;
                        response ← process_frame m;
                        mret (json_dumps response)) w with
                 | (Returned payload, w') => (HSend payload rest, w')
                 | (Raised e, w') => leave ws (Raised e) w'
                 end
            else leave ws (Raised message_too_big) w).
    destruct (transport_accepts (max_size ws) m) eqn:Hacc.
    + destruct (frame_step ws m w) as (r & w2 & -> & Hpf & _).
      rewrite (guarded_bind_Returned ws _ _ w tt (emit (EvRecv (ws_id ws) m) w).2) by done.
      change (hstep ws (HSend (json_dumps r) rest) w2)
        with (match websocket_send ws (json_dumps r) w2 with
              | (Returned _, w') => (HRecv rest, w')
              | (Raised e, w') => leave ws (Raised e) w'
              end).
      assert (Hbody : loop_body ws m (emit (EvRecv (ws_id ws) m) w).2 =
                      websocket_send ws (json_dumps r) w2).
      { unfold loop_body, mbind, M_bind. by rewrite Hpf. }
      destruct (websocket_send ws (json_dumps r) w2) as [[[]|e] w3] eqn:Hsend.
      * rewrite (guarded_bind_Returned ws (loop_body ws m)
                   (λ _, async_for ws rest (loop_body ws)) _ tt w3 Hbody).
        by apply IH.
      * rewrite (guarded_bind_Raised ws (loop_body ws m)
                   (λ _, async_for ws rest (loop_body ws)) _ e w3 Hbody).
        unfold leave. destruct (guarded ws _ w3) as [r' w'].
        destruct (hstep ws (HDone r') w') eqn:Hd. simpl in Hd. simplify_eq.
        apply run_handler_done.
    + unfold leave.
      change (raise message_too_big) with (@lift _ unit (Raised message_too_big)).
      destruct (guarded ws _ w) as [r' w']. simpl. apply run_handler_done.
Qed.

(** Run to its end, the coroutine is [handle_client]. *)
Lemma run_handler_handle_client ws w n :
  (handler_fuel ws <= n)%nat ->
  run_handler n ws HStart w =
    let '(r, w') := handle_client ws w in (HDone r, w').
Proof.
  unfold handler_fuel. intros Hn. destruct n as [|n]; [lia|].
  cbn [run_handler hstep]. unfold handle_client, mbind, M_bind. simpl.
  rewrite run_handler_recv by lia. done.
Qed.

End Agreement.

(** ** The event loop *)

Section Loop.
Context `{Collaborators}.

Lemma loop_step_spec l i :
  (l_tasks l !! i = None ∧ loop_step l i = l) ∨
  (∃ t, l_tasks l !! i = Some t ∧
        l_world (loop_step l i) = (hstep (t_ws t) (t_state t) (l_world l)).2 ∧
        l_tasks (loop_step l i) =
          <[i := set_state t (hstep (t_ws t) (t_state t) (l_world l)).1]> (l_tasks l)).
Proof.
  unfold loop_step. destruct (l_tasks l !! i) as [t|]; [right|by left].
  exists t. by destruct (hstep (t_ws t) (t_state t) (l_world l)).
Qed.

Lemma run_loop_cons i schedule l :
  run_loop (i :: schedule) l = run_loop schedule (loop_step l i).
Proof. done. Qed.

(** Induction over a run: a property of the tasks and of the events so far
    that every transition of every task preserves holds after every
    schedule. *)
Lemma run_loop_invariant (I : list task -> list event -> Prop) :
  (∀ tasks evs i t evs' s',
      I tasks evs -> tasks !! i = Some t ->
      hstep_rel (t_ws t) (t_state t) evs' s' ->
      I (<[i := set_state t s']> tasks) (evs ++ evs')) ->
  ∀ schedule l,
    I (l_tasks l) [] ->
    ∃ evs, trace (l_world (run_loop schedule l)) = trace (l_world l) ++ evs ∧
           I (l_tasks (run_loop schedule l)) evs.
Proof.
  intros Hstep schedule l HI.
  assert (Hgen : ∀ schedule l t0 evs0,
             trace (l_world l) = t0 ++ evs0 -> I (l_tasks l) evs0 ->
             ∃ evs, trace (l_world (run_loop schedule l)) = t0 ++ evs ∧
                    I (l_tasks (run_loop schedule l)) evs).
  { clear schedule l HI. induction schedule as [|i schedule IH]; intros l t0 evs0 Ht HI.
    - exists evs0. done.
    - rewrite run_loop_cons.
      destruct (loop_step_spec l i) as [[_ ->]|(t & Hi & Hw & Hts)]; [by eapply IH|].
      destruct (hstep_sound (t_ws t) (t_state t) (l_world l)) as (evs' & Htr & Hrel).
      apply (IH _ t0 (evs0 ++ evs')).
      + rewrite Hw, Htr, Ht. by rewrite app_assoc.
      + rewrite Hts. by eapply Hstep. }
  apply (Hgen schedule l (trace (l_world l)) []); [by rewrite app_nil_r|done].
Qed.

(** *** Events of one connection *)

Lemma conn_trace_app id t1 t2 :
  conn_trace id (t1 ++ t2) = conn_trace id t1 ++ conn_trace id t2.
Proof. apply filter_app. Qed.

Lemma conn_trace_model id evs :
  forallb is_model_event evs = true -> conn_trace id evs = [].
Proof.
  induction evs as [|ev evs IH]; [done|]. simpl. intros [Hev Hevs]%andb_prop.
  unfold conn_trace. destruct ev; try done;
    (rewrite filter_cons_False by done); by apply IH.
Qed.

Lemma exchanges_snoc id ans m p :
  exchanges id (ans ++ [(m, p)]) = exchanges id ans ++ [EvRecv id m; EvSend id p].
Proof. unfold exchanges. by rewrite bind_app. Qed.

(** The events of a transition of [ws] belong to [ws] or to the detector. *)
Lemma hstep_rel_other ws s evs s' id :
  hstep_rel ws s evs s' -> ws_id ws ≠ id -> conn_trace id evs = [].
Proof.
  intros Hrel Hne. destruct Hrel; try done.
  - unfold conn_trace. rewrite filter_cons_False by (simpl; congruence).
    by apply conn_trace_model.
  - unfold conn_trace. by rewrite filter_cons_False by (simpl; congruence).
Qed.

Lemma conn_inv_step ws s ct evs s' :
  conn_inv ws s ct -> hstep_rel ws s evs s' ->
  conn_inv ws s' (ct ++ conn_trace (ws_id ws) evs).
Proof.
  intros Hinv Hrel. destruct Hrel; inversion Hinv; subst; simpl; rewrite ?app_nil_r.
  - by apply (ci_recv ws []).
  - match goal with Hin : ws_incoming ws = _ ++ [] |- _ => rewrite app_nil_r in Hin end.
    by apply ci_done.
  - by eapply ci_rejected.
  - unfold conn_trace. rewrite filter_cons_True by done.
    fold (conn_trace (ws_id ws) evs). rewrite conn_trace_model by done.
    apply ci_send; [done..|]. by exists w0, response.
  - unfold conn_trace. rewrite filter_cons_True by done. rewrite filter_nil.
    rewrite <- app_assoc. simpl. rewrite <- exchanges_snoc.
    apply ci_recv.
    + rewrite fmap_app. simpl. by rewrite <- app_assoc.
    + apply Forall_app. split; [done|]. by constructor.
  - by eapply ci_lost.
  - by eapply ci_done.
  - by eapply ci_rejected.
  - by eapply ci_lost.
Qed.

(** Read off the invariant: answered frames in order, then at most one
    frame whose response is still being sent or was lost with the
    connection; and a handler that is done has answered every frame, unless
    the transport rejected the next one or a send failed. *)
Lemma conn_inv_view ws s ct :
  conn_inv ws s ct ->
  ∃ ans unanswered,
    ct = exchanges (ws_id ws) ans ++ (EvRecv (ws_id ws) <$> unanswered) ∧
    (ans.*1 ++ unanswered) `prefix_of` ws_incoming ws ∧
    Forall (λ mp, answers mp.1 mp.2) ans ∧
    (unanswered = [] ∨
     ∃ m, unanswered = [m] ∧
          ((∃ payload rest, s = HSend payload rest) ∨
           (∃ r k e, s = HDone r ∧ ws_send_result ws k = Some e))) ∧
    (∀ r, s = HDone r ->
       (ans.*1 = ws_incoming ws ∧ unanswered = []) ∨
       (∃ m rest, ws_incoming ws = ans.*1 ++ m :: rest ∧ unanswered = [] ∧
                  transport_accepts (max_size ws) m = false) ∨
       (∃ m rest k e, ws_incoming ws = ans.*1 ++ m :: rest ∧ unanswered = [m] ∧
                      ws_send_result ws k = Some e)).
Proof.
  destruct 1 as [|ans pending Hin Hans|ans m p pending Hin Hans Hp
                 |ans r Hin Hans|ans m rest r Hin Hans Hrej
                 |ans m rest r k e Hin Hans Hk].
  - exists [], []. repeat split; [apply prefix_nil|constructor|by left|done].
  - exists ans, []. simpl. rewrite !app_nil_r. repeat split; [|done|by left|done].
    rewrite Hin. by apply prefix_app_r.
  - exists ans, [m].
    repeat split; [|done|right; exists m; split; [done|left; eauto]|done].
    rewrite Hin. apply prefix_app, (prefix_cons m), prefix_nil.
  - exists ans, []. simpl. rewrite !app_nil_r.
    repeat split; [by rewrite Hin|done|by left|]. intros _ _. by left.
  - exists ans, []. simpl. rewrite !app_nil_r. repeat split; [|done|by left|].
    + rewrite Hin. by apply prefix_app_r.
    + intros _ _. right. left. by exists m, rest.
  - exists ans, [m].
    repeat split; [|done|right; exists m; split; [done|right; eauto]|].
    + rewrite Hin. apply prefix_app, (prefix_cons m), prefix_nil.
    + intros _ _. right. right. by exists m, rest, k, e.
Qed.

Lemma fmap_insert_same {A B} (f : A -> B) (l : list A) i x y :
  l !! i = Some x -> f y = f x -> f <$> <[i := y]> l = f <$> l.
Proof.
  intros Hi Hf. rewrite list_fmap_insert, Hf. apply list_insert_id.
  by rewrite list_lookup_fmap, Hi.
Qed.

Lemma tasks_inv_step wss tasks evs i t evs' s' :
  NoDup (ws_id <$> wss) ->
  tasks_inv wss tasks evs -> tasks !! i = Some t ->
  hstep_rel (t_ws t) (t_state t) evs' s' ->
  tasks_inv wss (<[i := set_state t s']> tasks) (evs ++ evs').
Proof.
  intros Hnd [Hws Hinv] Hi Hrel. split.
  - rewrite <- Hws. by apply fmap_insert_same with t.
  - intros j t' Hj. rewrite conn_trace_app.
    destruct (decide (j = i)) as [->|Hne].
    + rewrite list_lookup_insert_eq in Hj by (by eapply lookup_lt_Some).
      injection Hj as <-.
      change (conn_inv (t_ws t) s'
                (conn_trace (task_id t) evs ++ conn_trace (ws_id (t_ws t)) evs')).
      apply (conn_inv_step (t_ws t) (t_state t) _ evs' s'); [by apply Hinv with i|done].
    + rewrite list_lookup_insert_ne in Hj by done.
      assert (Hid : task_id t ≠ task_id t'); [|
        rewrite (hstep_rel_other (t_ws t) (t_state t) evs' s' (task_id t') Hrel Hid),
          app_nil_r; by eapply Hinv].
      intros Heq. apply Hne.
      apply (NoDup_lookup _ j i (task_id t') Hnd); rewrite <- Hws;
        rewrite <- list_fmap_compose, list_lookup_fmap.
      * by rewrite Hj.
      * rewrite Hi. simpl. by rewrite <- Heq.
Qed.

Lemma run_loop_tasks_inv wss schedule l :
  NoDup (ws_id <$> wss) ->
  tasks_inv wss (l_tasks l) [] ->
  ∃ evs, trace (l_world (run_loop schedule l)) = trace (l_world l) ++ evs ∧
         tasks_inv wss (l_tasks (run_loop schedule l)) evs.
Proof.
  intros Hnd Hinv. apply (run_loop_invariant (tasks_inv wss)); [|done].
  intros. by eapply tasks_inv_step.
Qed.

Lemma serve_ws max_size (peers : list Peer) :
  t_ws <$> serve max_size peers = accept max_size <$> peers.
Proof. unfold serve. rewrite <- list_fmap_compose. done. Qed.

Lemma serve_ids max_size (peers : list Peer) :
  ws_id <$> (accept max_size <$> peers) = peer_id <$> peers.
Proof. rewrite <- list_fmap_compose. done. Qed.

Lemma serve_lookup max_size peers i t :
  serve max_size peers !! i = Some t ->
  ∃ p, peers !! i = Some p ∧ t_ws t = accept max_size p ∧ t_state t = HStart.
Proof.
  unfold serve. rewrite list_lookup_fmap. destruct (peers !! i) as [p|]; [|done].
  intros [= <-]. eauto.
Qed.

Lemma listen_spec peers w :
  trace (l_world (listen peers w)) = trace w ∧
  self (l_world (listen peers w)) = self w ∧
  l_tasks (listen peers w) = serve (10 * 1024 * 1024) peers.
Proof. done. Qed.

(** *** Resumptions that a handler still takes *)

Lemma hstep_rel_remaining ws s evs s' :
  hstep_rel ws s evs s' -> is_done s = false ->
  (remaining ws s' < remaining ws s)%nat.
Proof. destruct 1; simpl; intros; try done; lia. Qed.

Lemma remaining_done ws s : remaining ws s = 0%nat -> ∃ r, s = HDone r.
Proof. destruct s; simpl; try lia. eauto. Qed.

Lemma resumptions_cons j i schedule :
  resumptions i (j :: schedule) =
    ((if decide (j = i) then 1 else 0) + resumptions i schedule)%nat.
Proof.
  unfold resumptions. destruct (decide (j = i)).
  - by rewrite filter_cons_True.
  - by rewrite filter_cons_False.
Qed.

(** Each resumption of a task brings it closer to its end, whatever the
    other tasks do in between. *)
Lemma run_loop_remaining schedule : ∀ l i t,
  l_tasks l !! i = Some t ->
  ∃ t', l_tasks (run_loop schedule l) !! i = Some t' ∧
        t_ws t' = t_ws t ∧
        (remaining (t_ws t) (t_state t') <=
           remaining (t_ws t) (t_state t) - resumptions i schedule)%nat.
Proof.
  induction schedule as [|j schedule IH]; intros l i t Hi.
  - exists t. simpl. split; [done|]. split; [done|]. unfold resumptions. simpl. lia.
  - rewrite run_loop_cons, resumptions_cons.
    destruct (loop_step_spec l j) as [[Hnone ->]|(tj & Hj & Hw & Hts)].
    + destruct (IH l i t Hi) as (t' & Ht' & Hws & Hrem).
      exists t'. split; [done|]. split; [done|].
      destruct (decide (j = i)) as [->|_]; [congruence|simpl; lia].
    + destruct (decide (j = i)) as [->|Hne].
      * assert (tj = t) as -> by congruence.
        destruct (hstep_sound (t_ws t) (t_state t) (l_world l)) as (evs & _ & Hrel).
        set (s' := (hstep (t_ws t) (t_state t) (l_world l)).1) in *.
        assert (Hi' : l_tasks (loop_step l i) !! i = Some (set_state t s')).
        { rewrite Hts. apply list_lookup_insert_eq. by eapply lookup_lt_Some. }
        destruct (IH _ i _ Hi') as (t' & Ht' & Hws & Hrem).
        exists t'. split; [done|]. split; [done|]. simpl in Hrem.
        destruct (is_done (t_state t)) eqn:Hdone.
        -- destruct (t_state t); done.
        -- pose proof (hstep_rel_remaining _ _ _ _ Hrel Hdone). lia.
      * assert (Hi' : l_tasks (loop_step l j) !! i = Some t).
        { rewrite Hts. by rewrite list_lookup_insert_ne. }
        destruct (IH _ i _ Hi') as (t' & Ht' & Hws & Hrem).
        exists t'. split; [done|]. split; [done|]. simpl. lia.
Qed.

End Loop.

(** ** The set of active connections *)

Section Registry.
Context `{Collaborators}.

Lemma active_not_done s : is_active s = true -> is_done s = false.
Proof. by destruct s. Qed.

Lemma done_not_active s : is_done s = true -> is_active s = false.
Proof. by destruct s. Qed.

(** The four kinds of resumption and what each does to the client set. *)
Lemma hstep_registry ws s w :
  let s' := (hstep ws s w).1 in
  let c := clients (self w) in
  let c' := clients (self (hstep ws s w).2) in
  (s = HStart ∧ is_active s' = true ∧ c' = {[ws_id ws]} ∪ c) ∨
  (is_active s = true ∧ is_active s' = true ∧ c' = c) ∨
  (is_active s = true ∧ is_done s' = true ∧ c' = c ∖ {[ws_id ws]}) ∨
  (is_done s = true ∧ s' = s ∧ c' = c).
Proof.
  destruct (hstep_sound ws s w) as (evs & _ & Hrel).
  destruct (hstep_self ws s w) as (_ & _ & Hc).
  revert Hrel Hc. cbv zeta. generalize (hstep ws s w). intros [s' w'] Hrel Hc.
  simpl in *. inversion Hrel; subst; simpl in *; auto 10.
Qed.

Lemma removed_by_same id l l' :
  (id ∈ clients (self (l_world l)) ↔ id ∈ clients (self (l_world l'))) ->
  removed_by id l l' = 0%nat.
Proof. intros Hiff. unfold removed_by. rewrite decide_False; [done|]. tauto. Qed.

Lemma task_ids_distinct (wss : list WebSocket) (tasks : list task) i j t t' :
  NoDup (ws_id <$> wss) -> t_ws <$> tasks = wss ->
  tasks !! i = Some t -> tasks !! j = Some t' -> task_id t = task_id t' -> i = j.
Proof.
  intros Hnd <- Hi Hj Heq.
  apply (NoDup_lookup _ i j (task_id t) Hnd);
    rewrite <- list_fmap_compose, list_lookup_fmap.
  - by rewrite Hi.
  - rewrite Hj. simpl. unfold task_id in *. congruence.
Qed.

Lemma task_id_in (wss : list WebSocket) (tasks : list task) i t :
  t_ws <$> tasks = wss -> tasks !! i = Some t -> task_id t ∈ ws_id <$> wss.
Proof.
  intros <- Hi. rewrite <- list_fmap_compose.
  apply list_elem_of_lookup. exists i. by rewrite list_lookup_fmap, Hi.
Qed.

Lemma reg_inv_step c0 wss l cnt i :
  NoDup (ws_id <$> wss) ->
  reg_inv c0 wss l cnt ->
  reg_inv c0 wss (loop_step l i) (λ id, (cnt id + removed_by id l (loop_step l i))%nat).
Proof.
  intros Hnd (Hws & Htasks & Hout).
  destruct (loop_step_spec l i) as [[_ ->]|(t & Hi & Hw & Hts)].
  { split; [done|]. split; [|done]. intros j t' Hj.
    rewrite removed_by_same by done. rewrite Nat.add_0_r. by apply (Htasks j). }
  pose proof (hstep_registry (t_ws t) (t_state t) (l_world l)) as Hreg.
  simpl in Hreg. rewrite <- Hw in Hreg.
  set (s' := (hstep (t_ws t) (t_state t) (l_world l)).1) in *.
  assert (Hws' : t_ws <$> l_tasks (loop_step l i) = wss).
  { rewrite Hts, <- Hws. by apply fmap_insert_same with t. }
  destruct (Htasks i t Hi) as [Hmem Hcnt].
  assert (Hother : ∀ x, x ≠ task_id t ->
            x ∈ clients (self (l_world (loop_step l i))) ↔ x ∈ clients (self (l_world l))).
  { intros x Hx. fold (task_id t) in Hreg.
    destruct Hreg as [(_ & _ & ->)|[(_ & _ & ->)|[(_ & _ & ->)|(_ & _ & ->)]]];
      rewrite ?elem_of_union, ?elem_of_difference, ?elem_of_singleton; tauto. }
  split; [done|]. split.
  - intros j t' Hj. rewrite Hts in Hj.
    destruct (decide (j = i)) as [->|Hne].
    + rewrite list_lookup_insert_eq in Hj by (by eapply lookup_lt_Some).
      injection Hj as <-. change (task_id (set_state t s')) with (task_id t).
      change (t_state (set_state t s')) with s'. fold (task_id t) in Hreg.
      unfold removed_by.
      destruct Hreg as [(Hs & Hs' & Hc)|[(Hs & Hs' & Hc)|[(Hs & Hs' & Hc)|(Hs & Hs' & Hc)]]];
        rewrite Hc.
      * rewrite Hs in *. simpl in *. rewrite Hs', (active_not_done s') by done.
        split; [rewrite elem_of_union, elem_of_singleton; tauto|].
        rewrite decide_False; [lia|]. intros [Hin _]. by apply Hmem in Hin.
      * rewrite Hs', (active_not_done s') by done.
        rewrite (active_not_done (t_state t)) in Hcnt by done.
        split; [tauto|]. rewrite decide_False; [lia|]. tauto.
      * rewrite Hs', (done_not_active s') by done.
        rewrite (active_not_done (t_state t)) in Hcnt by done.
        split; [rewrite elem_of_difference, elem_of_singleton;
                split; [by intros [_ ?]|done]|].
        rewrite decide_True; [lia|].
        split; [tauto|]. rewrite elem_of_difference, elem_of_singleton. tauto.
      * rewrite Hs'. split; [done|].
        rewrite decide_False; [rewrite Hcnt; lia|]. tauto.
    + rewrite list_lookup_insert_ne in Hj by done.
      assert (Hid : task_id t' ≠ task_id t).
      { intros Heq. apply Hne. by eapply (task_ids_distinct wss (l_tasks l)). }
      rewrite removed_by_same by (by rewrite (Hother _ Hid)).
      rewrite Nat.add_0_r, (Hother _ Hid). by apply (Htasks j).
  - intros x Hx. rewrite Hother; [by apply Hout|].
    intros ->. apply Hx. by apply (task_id_in wss (l_tasks l) i t).
Qed.

Lemma reg_inv_run c0 wss schedule l cnt :
  NoDup (ws_id <$> wss) ->
  reg_inv c0 wss l cnt ->
  reg_inv c0 wss (run_loop schedule l)
    (λ id, (cnt id + loop_removals id schedule l)%nat).
Proof.
  intros Hnd. revert l cnt. induction schedule as [|i schedule IH]; intros l cnt Hinv.
  - destruct Hinv as (Hws & Htasks & Hout). split; [done|]. split; [|done].
    intros j t Hj. simpl. rewrite Nat.add_0_r. by apply (Htasks j).
  - rewrite run_loop_cons.
    pose proof (IH _ _ (reg_inv_step c0 wss l cnt i Hnd Hinv)) as (Hws & Htasks & Hout).
    split; [done|]. split; [|done].
    intros j t Hj. destruct (Htasks j t Hj) as [Hm Hc]. split; [done|].
    rewrite <- Hc. simpl. unfold removed_by. lia.
Qed.

End Registry.

(** ** Floating-point facts *)

Lemma digits2_pos_bounds (m : positive) :
  2 ^ (Z.pos (digits2_pos m) - 1) <= Z.pos m < 2 ^ Z.pos (digits2_pos m).
Proof.
  induction m as [m IH|m IH|]; simpl digits2_pos.
  - rewrite Pos2Z.inj_succ. replace (Z.succ (Z.pos (digits2_pos m)) - 1) with (Z.succ (Z.pos (digits2_pos m) - 1)) by lia.
    rewrite !Z.pow_succ_r by lia. lia.
  - rewrite Pos2Z.inj_succ. replace (Z.succ (Z.pos (digits2_pos m)) - 1) with (Z.succ (Z.pos (digits2_pos m) - 1)) by lia.
    rewrite !Z.pow_succ_r by lia. lia.
  - simpl. lia.
Qed.

Lemma iter_xO_digits (m k : positive) :
  digits2_pos (Pos.iter xO m k) = (digits2_pos m + k)%positive.
Proof.
  induction k as [|k IH] using Pos.peano_ind.
  - simpl. lia.
  - rewrite Pos.iter_succ. simpl. rewrite IH. lia.
Qed.

Lemma iter_xO_value (m k : positive) :
  Z.pos (Pos.iter xO m k) = Z.pos m * 2 ^ Z.pos k.
Proof.
  induction k as [|k IH] using Pos.peano_ind.
  - simpl. lia.
  - rewrite Pos.iter_succ, Pos2Z.inj_succ, Z.pow_succ_r by lia.
    rewrite Pos2Z.inj_xO, IH. lia.
Qed.

Lemma float_finite (s : bool) (m : positive) (e : Z) :
  Z.pos (digits2_pos m) <= 24 -> -149 <= e <= 104 ->
  let k := (53 - digits2_pos m)%positive in
  Float.float (S754_finite s m e) = S754_finite s (Pos.iter xO m k) (e - Z.pos k).
Proof.
  intros Hd He k. unfold Float.float, binary_round, Float.prec64, Float.emax64.
  assert (Hk : Z.pos k = 53 - Z.pos (digits2_pos m)).
  { unfold k. rewrite Pos2Z.inj_sub by lia. done. }
  assert (Hf : fexp 53 1024 (Z.pos (digits2_pos m) + e) = e - Z.pos k).
  { unfold fexp, emin. lia. }
  rewrite Hf. unfold shl_align.
  replace (e - Z.pos k - e) with (Z.neg k) by lia.
  unfold binary_round_aux, shr_fexp. simpl Zdigits2.
  rewrite iter_xO_digits.
  assert (Hf2 : fexp 53 1024 (Z.pos (digits2_pos m + k) + (e - Z.pos k)) = e - Z.pos k).
  { unfold fexp, emin. rewrite Pos2Z.inj_add. lia. }
  rewrite Hf2, Z.sub_diag. simpl.
  rewrite iter_xO_digits, Hf2, Z.sub_diag. simpl.
  destruct (Z.leb_spec (e - Z.pos k) (1024 - 53)); [done|lia].
Qed.

Lemma one32_eq : Float.one32 = S754_finite false 8388608 (-23).
Proof. reflexivity. Qed.

Lemma one64_eq : Float.one64 = S754_finite false 4503599627370496 (-52).
Proof. reflexivity. Qed.

Lemma valid32_finite (s : bool) (m : positive) (e : Z) :
  Float.valid32 (S754_finite s m e) = true ->
  -149 <= e <= 104 ∧ Z.pos (digits2_pos m) <= 24 ∧
  (Z.pos (digits2_pos m) = 24 ∨ e = -149).
Proof.
  unfold Float.valid32, valid_binary, bounded, canonical_mantissa, fexp, emin,
    Float.prec32, Float.emax32.
  intros [Hc He]%andb_prop. apply Z.eqb_eq in Hc. apply Z.leb_le in He. lia.
Qed.

Lemma float_in_unit (c : spec_float) :
  Float.valid32 c = true -> Float.in_unit32 c = true ->
  Float.in_unit64 (Float.float c) = true.
Proof.
  intros Hv Hu. destruct c as [s|s| |s m e]; try done.
  apply valid32_finite in Hv as (He & Hd & Hcan).
  rewrite float_finite by done.
  unfold Float.in_unit32, Float.in_unit64 in *. rewrite one32_eq in Hu. rewrite one64_eq.
  apply andb_prop in Hu as [H0 H1]. destruct s; [done|].
  apply andb_true_intro. split; [done|].
  unfold SFleb, SFcompare in *.
  assert (Hk : Z.pos (53 - digits2_pos m) = 53 - Z.pos (digits2_pos m)).
  { rewrite Pos2Z.inj_sub by lia. done. }
  destruct (Z.compare_spec e (-23)) as [->|Hlt|Hgt]; [| |done].
  - destruct Hcan as [Hd24|]; [|lia].
    assert (Hm : m = 8388608%positive).
    { pose proof (digits2_pos_bounds m) as Hb. rewrite Hd24 in Hb.
      apply Pos.le_antisym.
      - unfold Pos.le. rewrite Pos.compare_cont_spec in H1. simpl in H1.
        destruct (m ?= 8388608)%positive; done.
      - change (2 ^ (24 - 1)) with 8388608 in Hb. lia. }
    subst m. reflexivity.
  - assert (Hez : e - Z.pos (53 - digits2_pos m) < -52) by lia.
    apply Z.compare_lt_iff in Hez. by rewrite Hez.
Qed.

Section Rounding.
Variables prec emax : Z.
Hypothesis prec_pos : 0 < prec.

Lemma shr_1_lower (mrs : shr_record) (k : Z) :
  0 <= k -> 2 ^ (k + 1) <= shr_m mrs -> 2 ^ k <= shr_m (shr_1 mrs).
Proof.
  intros Hk. rewrite Z.pow_add_r by lia. change (2 ^ 1) with 2.
  pose proof (Z.pow_pos_nonneg 2 k) as Hpos.
  destruct mrs as [[|[p|p|]|p] r s]; simpl; lia.
Qed.

Lemma iter_shr_1_lower (p : positive) :
  ∀ (mrs : shr_record) (k : Z),
    0 <= k -> 2 ^ (k + Z.pos p) <= shr_m mrs -> 2 ^ k <= shr_m (SpecFloat.iter_pos shr_1 p mrs).
Proof.
  induction p as [p IH|p IH|]; intros mrs k Hk Hm; simpl.
  - apply IH; [done|]. apply IH; [lia|]. apply shr_1_lower; [lia|].
    replace (k + Z.pos p + Z.pos p + 1) with (k + Z.pos p~1) by lia. done.
  - apply IH; [done|]. apply IH; [lia|].
    replace (k + Z.pos p + Z.pos p) with (k + Z.pos p~0) by lia. done.
  - by apply shr_1_lower.
Qed.

Lemma shr_record_of_loc_m (m : Z) (l : location) : shr_m (shr_record_of_loc m l) = m.
Proof. by destruct l as [|[]]. Qed.

Lemma shr_fexp_positive (mx ex : Z) (lx : location) :
  0 < mx -> emin prec emax <= ex ->
  0 < shr_m (shr_fexp prec emax mx ex lx).1 ∧ emin prec emax <= (shr_fexp prec emax mx ex lx).2.
Proof.
  intros Hm He. unfold shr_fexp, shr.
  destruct mx as [|p|p]; [lia| |lia]. simpl Zdigits2.
  destruct (fexp prec emax (Z.pos (digits2_pos p) + ex) - ex) as [|n|n] eqn:Hn; simpl;
    rewrite ?shr_record_of_loc_m; [lia| |lia].
  assert (Hd : Z.pos n = Z.pos (digits2_pos p) - prec).
  { unfold fexp in Hn. lia. }
  split; [|lia].
  assert (2 ^ (prec - 1) <= shr_m (SpecFloat.iter_pos shr_1 n (shr_record_of_loc (Z.pos p) lx))).
  { apply iter_shr_1_lower; [lia|]. rewrite shr_record_of_loc_m.
    replace (prec - 1 + Z.pos n) with (Z.pos (digits2_pos p) - 1) by lia.
    apply digits2_pos_bounds. }
  pose proof (Z.pow_pos_nonneg 2 (prec - 1)). lia.
Qed.

Lemma round_nearest_even_ge (m : Z) (l : location) : m <= round_nearest_even m l.
Proof. destruct l as [|[]]; simpl; try lia. destruct (Z.even m); lia. Qed.

(** Rounding a positive mantissa keeps the sign: the result is a finite
    number or an infinity of sign [s]. *)
Lemma binary_round_aux_sign (s : bool) (mx ex : Z) (lx : location) :
  0 < mx -> emin prec emax <= ex ->
  (∃ m e, binary_round_aux prec emax s mx ex lx = S754_finite s m e ∧ emin prec emax <= e) ∨
  binary_round_aux prec emax s mx ex lx = S754_infinity s.
Proof.
  intros Hm He. unfold binary_round_aux.
  pose proof (shr_fexp_positive mx ex lx Hm He) as [Hm1 He1].
  destruct (shr_fexp prec emax mx ex lx) as [mrs' e']. simpl in *.
  pose proof (round_nearest_even_ge (shr_m mrs') (loc_of_shr_record mrs')) as Hr.
  pose proof (shr_fexp_positive (round_nearest_even (shr_m mrs') (loc_of_shr_record mrs'))
                e' loc_Exact ltac:(lia) He1) as [Hm2 He2].
  destruct (shr_fexp prec emax _ e' loc_Exact) as [mrs'' e'']. simpl in *.
  destruct (shr_m mrs'') as [|m|m]; [lia| |lia].
  destruct (e'' <=? emax - prec); [left; eauto|by right].
Qed.

Lemma shl_align_value (mx : positive) (ex ez : Z) :
  ez <= ex ->
  Z.pos (shl_align mx ex ez).1 = Z.pos mx * 2 ^ (ex - ez) ∧ (shl_align mx ex ez).2 = ez.
Proof.
  intros Hle. unfold shl_align. destruct (ez - ex) as [|d|d] eqn:Hd; simpl.
  - replace (ex - ez) with 0 by lia. lia.
  - lia.
  - rewrite iter_xO_value. replace (ex - ez) with (Z.pos d) by lia. done.
Qed.

Lemma shl_align_emin (mx : positive) (ex ez : Z) :
  emin prec emax <= ex -> emin prec emax <= ez ->
  emin prec emax <= (shl_align mx ex ez).2.
Proof. intros. unfold shl_align. destruct (ez - ex); simpl; lia. Qed.

Lemma binary_round_sign (s : bool) (m : positive) (e : Z) :
  emin prec emax <= e ->
  (∃ m' e', binary_round prec emax s m e = S754_finite s m' e' ∧ emin prec emax <= e') ∨
  binary_round prec emax s m e = S754_infinity s.
Proof.
  intros He. unfold binary_round.
  pose proof (shl_align_emin m e (fexp prec emax (Z.pos (digits2_pos m) + e)) He
                ltac:(unfold fexp; lia)) as Hz.
  destruct (shl_align m e _) as [mz ez]. simpl in Hz.
  by apply binary_round_aux_sign.
Qed.

End Rounding.

Lemma float_signed (s : bool) (r : spec_float) :
  Float.signed s (-149) r -> Float.signed s (-1074) (Float.float r).
Proof.
  intros [(m & e & -> & He)| ->]; [|by right].
  apply (binary_round_sign 53 1024); [done|]. unfold emin. lia.
Qed.

Lemma signed_negative (r : spec_float) (emin : Z) :
  Float.signed true emin r -> Float.negative r = true.
Proof. by intros [(m & e & -> & _)| ->]. Qed.

Lemma signed_nonneg (r : spec_float) (emin : Z) :
  Float.signed false emin r -> SFleb Float.zero r = true.
Proof. by intros [(m & e & -> & _)| ->]. Qed.

Lemma mag_lt (m1 m2 : positive) (e1 e2 : Z) :
  Float.valid32 (S754_finite false m1 e1) = true ->
  Float.valid32 (S754_finite false m2 e2) = true ->
  e1 < e2 ∨ (e1 = e2 ∧ Z.pos m1 < Z.pos m2) ->
  Z.pos m1 * 2 ^ (e1 - Z.min e1 e2) < Z.pos m2 * 2 ^ (e2 - Z.min e1 e2).
Proof.
  intros (He1 & Hd1 & Hc1)%valid32_finite (He2 & Hd2 & Hc2)%valid32_finite
    [Hlt|[-> Hlt]].
  - rewrite Z.min_l by lia. rewrite Z.sub_diag. simpl (2 ^ 0).
    destruct Hc2 as [Hd24|]; [|lia].
    pose proof (digits2_pos_bounds m1) as [_ Hb1].
    pose proof (digits2_pos_bounds m2) as [Hb2 _]. rewrite Hd24 in Hb2.
    change (2 ^ (24 - 1)) with 8388608 in Hb2.
    assert (2 ^ Z.pos (digits2_pos m1) <= 2 ^ 24) by (apply Z.pow_le_mono_r; lia).
    change (2 ^ 24) with 16777216 in *.
    assert (2 ^ 1 <= 2 ^ (e2 - e1)) by (apply Z.pow_le_mono_r; lia).
    change (2 ^ 1) with 2 in *. nia.
  - rewrite Z.min_id, Z.sub_diag. simpl (2 ^ 0). lia.
Qed.

Lemma mag_le (m1 m2 : positive) (e1 e2 : Z) :
  Float.valid32 (S754_finite false m1 e1) = true ->
  Float.valid32 (S754_finite false m2 e2) = true ->
  e1 < e2 ∨ (e1 = e2 ∧ Z.pos m1 <= Z.pos m2) ->
  Z.pos m1 * 2 ^ (e1 - Z.min e1 e2) <= Z.pos m2 * 2 ^ (e2 - Z.min e1 e2).
Proof.
  intros Hv1 Hv2 [Hlt|[-> Hle]].
  - apply Z.lt_le_incl, mag_lt; auto.
  - rewrite Z.min_id, Z.sub_diag. simpl (2 ^ 0). lia.
Qed.

Lemma sub32_finite (sx sy : bool) (mx my : positive) (ex ey : Z) :
  -149 <= ex -> -149 <= ey ->
  let ez := Z.min ex ey in
  let z := SpecFloat.cond_Zopp sx (Z.pos mx * 2 ^ (ex - ez)) -
           SpecFloat.cond_Zopp sy (Z.pos my * 2 ^ (ey - ez)) in
  let r := Float.sub32 (S754_finite sx mx ex) (S754_finite sy my ey) in
  (z < 0 -> Float.signed true (-149) r) ∧ (0 < z -> Float.signed false (-149) r) ∧
  (z = 0 -> r = S754_zero false).
Proof.
  intros Hex Hey ez z r. unfold r, Float.sub32, SFsub. fold ez.
  destruct (shl_align_value mx ex ez ltac:(unfold ez; lia)) as [-> _].
  destruct (shl_align_value my ey ez ltac:(unfold ez; lia)) as [-> _].
  fold z. unfold binary_normalize.
  destruct z as [|p|p] eqn:Hz; (split; [|split]); try lia; try done; intros _.
  - apply (binary_round_sign Float.prec32 Float.emax32); [done|].
    unfold emin, Float.prec32, Float.emax32, ez. lia.
  - apply (binary_round_sign Float.prec32 Float.emax32); [done|].
    unfold emin, Float.prec32, Float.emax32, ez. lia.
Qed.

Lemma finite32_valid x : Float.finite32 x = true -> Float.valid32 x = true.
Proof. by intros [? _]%andb_prop. Qed.

Lemma compare_cont_lt (m1 m2 : positive) :
  Pos.compare_cont Eq m1 m2 = Lt -> Z.pos m1 < Z.pos m2.
Proof.
  rewrite Pos.compare_cont_spec. by destruct (m1 ?= m2)%positive eqn:Hc.
Qed.

Lemma compare_cont_gt (m1 m2 : positive) :
  Pos.compare_cont Eq m1 m2 = Gt -> Z.pos m2 < Z.pos m1.
Proof.
  rewrite Pos.compare_cont_spec. destruct (m1 ?= m2)%positive eqn:Hc; try done.
  intros _. apply Pos.compare_gt_iff in Hc. lia.
Qed.

Lemma compare_cont_eq (m1 m2 : positive) :
  Pos.compare_cont Eq m1 m2 = Eq -> m1 = m2.
Proof.
  rewrite Pos.compare_cont_spec. destruct (m1 ?= m2)%positive eqn:Hc; try done.
  intros _. by apply Pos.compare_eq.
Qed.

Lemma valid32_sign s s' m e :
  Float.valid32 (S754_finite s m e) = Float.valid32 (S754_finite s' m e).
Proof. done. Qed.

(** Inverted corners give a negative difference. *)
Lemma sub32_negative (x2 x1 : spec_float) :
  Float.finite32 x1 = true -> Float.finite32 x2 = true -> SFltb x2 x1 = true ->
  Float.negative (Float.float (Float.sub32 x2 x1)) = true.
Proof.
  intros [Hv1 Hf1]%andb_prop [Hv2 Hf2]%andb_prop Hlt.
  apply (signed_negative _ (-1074)), float_signed.
  destruct x1 as [s1|s1| |s1 m1 e1]; try done;
    destruct x2 as [s2|s2| |s2 m2 e2]; try done.
  - destruct s2; [|done]. left. exists m2, e2. split; [done|].
    by apply valid32_finite in Hv2 as ([? _] & _).
  - destruct s1; [done|]. left. exists m1, e1. split; [done|].
    by apply valid32_finite in Hv1 as ([? _] & _).
  - pose proof Hv1 as ([He1 _] & _)%valid32_finite.
    pose proof Hv2 as ([He2 _] & _)%valid32_finite.
    apply (sub32_finite s2 s1 m2 m1 e2 e1 He2 He1).
    rewrite (valid32_sign s1 false) in Hv1. rewrite (valid32_sign s2 false) in Hv2.
    unfold SFltb, SFcompare in Hlt.
    pose proof (mag_lt m2 m1 e2 e1 Hv2 Hv1) as H21.
    pose proof (mag_lt m1 m2 e1 e2 Hv1 Hv2) as H12.
    rewrite (Z.min_comm e1 e2) in H12.
    pose proof (Z.pow_pos_nonneg 2 (e2 - Z.min e2 e1) ltac:(done) ltac:(lia)).
    pose proof (Z.pow_pos_nonneg 2 (e1 - Z.min e2 e1) ltac:(done) ltac:(lia)).
    destruct s2, s1; simpl; try done.
    + destruct (Z.compare_spec e2 e1) as [->|?|?]; try done.
      * destruct (Pos.compare_cont Eq m2 m1) eqn:Hc; try done.
        apply compare_cont_gt in Hc. lia.
      * lia.
    + nia.
    + destruct (Z.compare_spec e2 e1) as [->|?|?]; try done.
      * destruct (Pos.compare_cont Eq m2 m1) eqn:Hc; try done.
        apply compare_cont_lt in Hc. lia.
      * lia.
Qed.

(** Ordered corners give a difference that is not negative. *)
Lemma sub32_nonneg (x2 x1 : spec_float) :
  Float.finite32 x1 = true -> Float.finite32 x2 = true -> SFleb x1 x2 = true ->
  SFleb Float.zero (Float.float (Float.sub32 x2 x1)) = true.
Proof.
  intros [Hv1 Hf1]%andb_prop [Hv2 Hf2]%andb_prop Hle.
  destruct x1 as [s1|s1| |s1 m1 e1]; try done;
    destruct x2 as [s2|s2| |s2 m2 e2]; try done.
  - by destruct s1, s2.
  - destruct s2; [done|]. apply (signed_nonneg _ (-1074)), float_signed.
    left. exists m2, e2. split; [done|].
    by apply valid32_finite in Hv2 as ([? _] & _).
  - destruct s1; [|done]. apply (signed_nonneg _ (-1074)), float_signed.
    left. exists m1, e1. split; [done|].
    by apply valid32_finite in Hv1 as ([? _] & _).
  - pose proof Hv1 as ([He1 _] & _)%valid32_finite.
    pose proof Hv2 as ([He2 _] & _)%valid32_finite.
    pose proof (sub32_finite s2 s1 m2 m1 e2 e1 He2 He1) as (_ & Hpos & Hzero).
    rewrite (valid32_sign s1 false) in Hv1. rewrite (valid32_sign s2 false) in Hv2.
    unfold SFleb, SFcompare in Hle.
    pose proof (mag_le m2 m1 e2 e1 Hv2 Hv1) as H21.
    pose proof (mag_le m1 m2 e1 e2 Hv1 Hv2) as H12.
    rewrite (Z.min_comm e1 e2) in H12.
    pose proof (Z.pow_pos_nonneg 2 (e2 - Z.min e2 e1) ltac:(done) ltac:(lia)).
    pose proof (Z.pow_pos_nonneg 2 (e1 - Z.min e2 e1) ltac:(done) ltac:(lia)).
    set (z := SpecFloat.cond_Zopp s2 (Z.pos m2 * 2 ^ (e2 - Z.min e2 e1)) -
              SpecFloat.cond_Zopp s1 (Z.pos m1 * 2 ^ (e1 - Z.min e2 e1))) in *.
    assert (Hz : 0 <= z).
    { unfold z. destruct s1, s2; simpl; try done.
      - destruct (Z.compare_spec e1 e2) as [->|?|?]; try done.
        + destruct (Pos.compare_cont Eq m1 m2) eqn:Hc; try done.
          * apply compare_cont_eq in Hc. subst. lia.
          * apply compare_cont_gt in Hc. lia.
        + lia.
      - nia.
      - destruct (Z.compare_spec e1 e2) as [->|?|?]; try done.
        + destruct (Pos.compare_cont Eq m1 m2) eqn:Hc; try done.
          * apply compare_cont_eq in Hc. subst. lia.
          * apply compare_cont_lt in Hc. lia.
        + lia. }
    destruct (Z.eq_dec z 0) as [Hz0|Hz0].
    + by rewrite (Hzero Hz0).
    + apply (signed_nonneg _ (-1074)), float_signed, Hpos. lia.
Qed.

(** ** The mapping of the boxes *)

Section Mapping.
Context `{Collaborators}.

Lemma detection_of_spec results box d :
  detection_of results box = Returned d ->
  ∃ className,
    names results !! cls0 box = Some className ∧
    d = PyDict [("className", PyStr className);
                ("confidence", PyFloat (Float.float (conf0 box)));
                ("x", PyFloat (Float.float (xyxyn0 box).1.1.1));
                ("y", PyFloat (Float.float (xyxyn0 box).1.1.2));
                ("width", PyFloat (Float.float
                   (Float.sub32 (xyxyn0 box).1.2 (xyxyn0 box).1.1.1)));
                ("height", PyFloat (Float.float
                   (Float.sub32 (xyxyn0 box).2 (xyxyn0 box).1.1.2)))].
Proof.
  unfold detection_of, names_getitem.
  destruct (xyxyn0 box) as [[[x1 y1] x2] y2]. simpl.
  destruct (names results !! cls0 box) as [n|]; [|done].
  intros [= <-]. eauto.
Qed.

Lemma for_boxes_spec results bs acc ds :
  for_boxes results bs acc = Returned ds ->
  ∃ ds', ds = acc ++ ds' ∧
         Forall2 (λ box d, detection_of results box = Returned d) bs ds'.
Proof.
  revert acc. induction bs as [|box bs IH]; intros acc; simpl.
  - intros [= <-]. exists []. by rewrite app_nil_r.
  - destruct (detection_of results box) as [d|e] eqn:Hd; [|done].
    intros (ds' & -> & Hall)%IH. exists (d :: ds').
    rewrite <- app_assoc. split; [done|]. by constructor.
Qed.

Lemma detection_of_shape results box d :
  detection_of results box = Returned d -> detection_shape d.
Proof. intros (n & _ & ->)%detection_of_spec. unfold detection_shape. eauto 10. Qed.

Lemma process_frame_shape image_bytes w response :
  (process_frame image_bytes w).1 = Returned response -> response_shape response.
Proof.
  destruct (process_frame_outcome image_bytes w) as [w' ->]. simpl.
  rewrite process_frame_try_stages.
  destruct (decode image_bytes) as [frame|e]; [|intros [= <-]; right; by eexists].
  destruct (detect _ frame) as [results|e]; [|intros [= <-]; right; by eexists].
  destruct (for_boxes _ _ _) as [ds|e] eqn:Hfor; [|intros [= <-]; right; by eexists].
  intros [= <-]. left. do 2 eexists. split; [reflexivity|].
  apply for_boxes_spec in Hfor as (ds' & -> & Hall). simpl.
  induction Hall; constructor; eauto using detection_of_shape.
Qed.

End Mapping.

(** ** Properties of the frame pipeline *)

Section PipelineProperties.
Context `{Collaborators}.

(** C1. [process_frame] never raises. Whatever the input, it returns a
    response; when the decode stage, the detector or the mapping of the
    boxes raises [e], that response is the error dict of [e]: status
    ["error"], the string [str(e)] as message, and an empty detections
    list. *)
Theorem process_frame_never_raises (image_bytes : message) (w : world) :
  let error e := PyDict [("status", PyStr "error");
                         ("message", PyStr (exc_str e));
                         ("detections", PyList [])] in
  ∃ response w',
    process_frame image_bytes w = (Returned response, w') ∧
    match decode image_bytes with
    | Raised e => response = error e
    | Returned frame =>
        match detect (model (self w)) frame with
        | Raised e => response = error e
        | Returned results =>
            match for_boxes results (boxes results) [] with
            | Raised e => response = error e
            | Returned detections =>
                dict_get "status" response = Some (PyStr "success")
            end
        end
    end.
Proof.
  intros error.
  destruct (process_frame_outcome image_bytes w) as [w' Hpf].
  rewrite process_frame_try_stages in Hpf. rewrite Hpf.
  destruct (decode image_bytes) as [frame|e]; [|by eauto].
  destruct (detect _ frame) as [results|e]; [|by eauto].
  destruct (for_boxes _ _ _) as [ds|e]; by eauto.
Qed.

(** C3. When the detector returns [N] boxes for a frame and the response is
    a success, its detections list has [N] entries, and entry [i] has the
    width [x2 - x1] and the height [y2 - y1] of box [i] (the float32
    difference, converted by [float]) and its confidence, which is in
    [[0,1]] when the detector's confidence is. *)
Theorem detections_match_boxes (image_bytes : message) (w : world)
    (frame : ndarray) (results : Results) (response : pyobj) :
  decode image_bytes = Returned frame ->
  detect (model (self w)) frame = Returned results ->
  (process_frame image_bytes w).1 = Returned response ->
  dict_get "status" response = Some (PyStr "success") ->
  ∃ detections,
    dict_get "detections" response = Some (PyList detections) ∧
    length detections = length (boxes results) ∧
    ∀ i box, boxes results !! i = Some box ->
      ∃ d confidence,
        detections !! i = Some d ∧
        dict_get "width" d =
          Some (PyFloat (Float.float (Float.sub32 (xyxyn0 box).1.2 (xyxyn0 box).1.1.1))) ∧
        dict_get "height" d =
          Some (PyFloat (Float.float (Float.sub32 (xyxyn0 box).2 (xyxyn0 box).1.1.2))) ∧
        dict_get "confidence" d = Some (PyFloat confidence) ∧
        confidence = Float.float (conf0 box) ∧
        (Float.valid32 (conf0 box) = true -> Float.in_unit32 (conf0 box) = true ->
         Float.in_unit64 confidence = true).
Proof.
  intros Hdec Hdet Hpf Hstatus.
  destruct (process_frame_outcome image_bytes w) as [w' Hout].
  rewrite process_frame_try_stages, Hdec, Hdet in Hout. rewrite Hout in Hpf. simpl in Hpf.
  destruct (for_boxes results (boxes results) []) as [ds|e] eqn:Hfor;
    injection Hpf as <-; [|done].
  apply for_boxes_spec in Hfor as (ds' & -> & Hall). simpl in *.
  exists ds'. split; [done|]. split; [symmetry; by eapply Forall2_length|].
  intros i box Hi.
  destruct (Forall2_lookup_l _ _ _ _ _ Hall Hi) as (d & Hd & Hmap).
  apply detection_of_spec in Hmap as (n & _ & ->).
  eexists _, (Float.float (conf0 box)). split; [exact Hd|].
  repeat split; try done. apply float_in_unit.
Qed.


(** C5, as amended. The width and the height of a detection are the
    differences [x2 - x1] and [y2 - y1] as computed, without clamping: for
    finite corners, the width is negative when [x2 < x1] and not negative
    when [x1 <= x2], and so is the height for [y1] and [y2]. *)
Theorem width_height_follow_corners (results : Results) (box : Box) (d : pyobj) :
  detection_of results box = Returned d ->
  Float.finite32 (xyxyn0 box).1.1.1 = true ->
  Float.finite32 (xyxyn0 box).1.1.2 = true ->
  Float.finite32 (xyxyn0 box).1.2 = true ->
  Float.finite32 (xyxyn0 box).2 = true ->
  ∃ width height,
    dict_get "width" d = Some (PyFloat width) ∧
    dict_get "height" d = Some (PyFloat height) ∧
    width = Float.float (Float.sub32 (xyxyn0 box).1.2 (xyxyn0 box).1.1.1) ∧
    height = Float.float (Float.sub32 (xyxyn0 box).2 (xyxyn0 box).1.1.2) ∧
    (SFltb (xyxyn0 box).1.2 (xyxyn0 box).1.1.1 = true -> Float.negative width = true) ∧
    (SFleb (xyxyn0 box).1.1.1 (xyxyn0 box).1.2 = true -> SFleb Float.zero width = true) ∧
    (SFltb (xyxyn0 box).2 (xyxyn0 box).1.1.2 = true -> Float.negative height = true) ∧
    (SFleb (xyxyn0 box).1.1.2 (xyxyn0 box).2 = true -> SFleb Float.zero height = true).
Proof.
  intros (n & _ & ->)%detection_of_spec Hx1 Hy1 Hx2 Hy2.
  do 2 eexists. do 4 (split; [reflexivity|]).
  repeat split; eauto using sub32_negative, sub32_nonneg.
Qed.

End PipelineProperties.

(** ** Properties of the runs of the server *)

Section RunProperties.
Context `{Collaborators}.

(** C2. On each connection, in every run of the server: the events of the
    connection are its frames, each followed by the response to it, in the
    order of arrival. At most one frame, the last, is without its response,
    and only while that response is being sent or after the send failed and
    the connection was lost. The handler does not stop early: when it is
    done it has answered every frame of the connection, unless the
    connection was lost at a frame that the transport rejected or at a send
    that failed; and it is done once the event loop has resumed it twice per
    frame and twice more. *)
Theorem one_response_per_frame_in_order (peers : list Peer) (schedule : list nat)
    (w : world) (i : nat) (p : Peer) :
  NoDup (peer_id <$> peers) ->
  peers !! i = Some p ->
  ∃ evs t ans unanswered,
    trace (l_world (start peers schedule w)) = trace w ++ evs ∧
    l_tasks (start peers schedule w) !! i = Some t ∧
    conn_trace (peer_id p) evs =
      exchanges (peer_id p) ans ++ (EvRecv (peer_id p) <$> unanswered) ∧
    (ans.*1 ++ unanswered) `prefix_of` peer_frames p ∧
    Forall (λ mp, answers mp.1 mp.2) ans ∧
    (unanswered = [] ∨
     ∃ m, unanswered = [m] ∧
          ((∃ payload rest, t_state t = HSend payload rest) ∨
           (∃ r k e, t_state t = HDone r ∧ peer_send_result p k = Some e))) ∧
    (∀ r, t_state t = HDone r ->
       (ans.*1 = peer_frames p ∧ unanswered = []) ∨
       (∃ m rest, peer_frames p = ans.*1 ++ m :: rest ∧ unanswered = [] ∧
                  transport_accepts (10 * 1024 * 1024) m = false) ∨
       (∃ m rest k e, peer_frames p = ans.*1 ++ m :: rest ∧ unanswered = [m] ∧
                      peer_send_result p k = Some e)) ∧
    ((2 * length (peer_frames p) + 2 <= resumptions i schedule)%nat ->
     ∃ r, t_state t = HDone r).
Proof.
  intros Hnd Hi. unfold start.
  destruct (listen_spec peers w) as (Ht & _ & Hts).
  destruct (run_loop_tasks_inv (accept (10 * 1024 * 1024) <$> peers) schedule
              (listen peers w)) as (evs & Htr & Hws & Hinv).
  { by rewrite serve_ids. }
  { split; [by rewrite Hts, serve_ws|]. intros j t Hj. rewrite Hts in Hj.
    apply serve_lookup in Hj as (q & _ & _ & ->). constructor. }
  assert (Hlook : ∃ t, l_tasks (run_loop schedule (listen peers w)) !! i = Some t ∧
                       t_ws t = accept (10 * 1024 * 1024) p).
  { assert (Hl : (t_ws <$> l_tasks (run_loop schedule (listen peers w))) !! i =
                 Some (accept (10 * 1024 * 1024) p)).
    { by rewrite Hws, list_lookup_fmap, Hi. }
    rewrite list_lookup_fmap in Hl.
    destruct (l_tasks (run_loop schedule (listen peers w)) !! i) as [t|]; [|done].
    injection Hl as Hl. eauto. }
  destruct Hlook as (t & Hti & Hwt).
  pose proof (Hinv i t Hti) as Hci. apply conn_inv_view in Hci.
  unfold task_id in Hci. rewrite Hwt in Hci. simpl in Hci.
  destruct Hci as (ans & un & Hct & Hpre & Hans & Hun & Hdone).
  exists evs, t, ans, un. rewrite Htr, Ht. do 6 (split; [done|]). split; [done|].
  intros Hfuel.
  assert (Hi0 : l_tasks (listen peers w) !! i =
                Some {| t_ws := accept (10 * 1024 * 1024) p; t_state := HStart |}).
  { rewrite Hts. unfold serve. by rewrite list_lookup_fmap, Hi. }
  destruct (run_loop_remaining schedule _ i _ Hi0) as (t' & Ht' & _ & Hrem).
  assert (t' = t) as -> by congruence. simpl in Hrem.
  apply (remaining_done (accept (10 * 1024 * 1024) p)). lia.
Qed.

Lemma model_events_shaped evs :
  forallb is_model_event evs = true -> Forall sends_shaped evs.
Proof.
  induction evs as [|ev evs IH]; [done|]. simpl. intros [Hev Hevs]%andb_prop.
  constructor; [by destruct ev|by apply IH].
Qed.

Lemma hstep_rel_shaped ws s evs s' :
  payload_shaped s -> hstep_rel ws s evs s' ->
  Forall sends_shaped evs ∧ payload_shaped s'.
Proof.
  intros Hs Hrel.
  destruct Hrel as [|r|m rest r Hacc|m rest w0 response mevs Hacc Hpf Hb Hm
                    |p rest|p rest k e r Hk|r]; simpl in *; try done.
  - split; [|eexists; split; [done|by eapply process_frame_shape]].
    constructor; [done|by apply model_events_shaped].
  - split; [|done]. by repeat constructor.
Qed.

(** C6, as amended. Every response that the server sends is the
    serialisation of a dict of one of two shapes: [status], [detections],
    [inference_time] with each detection keyed [className], [confidence],
    [x], [y], [width], [height]; or [status], [message], [detections] with
    an empty list. *)
Theorem responses_on_the_wire (peers : list Peer) (schedule : list nat) (w : world) :
  ∃ evs,
    trace (l_world (start peers schedule w)) = trace w ++ evs ∧
    Forall sends_shaped evs.
Proof.
  unfold start. destruct (listen_spec peers w) as (Ht & _ & Hts).
  destruct (run_loop_invariant
              (λ tasks evs, Forall (λ t, payload_shaped (t_state t)) tasks ∧
                            Forall sends_shaped evs)) with
    (schedule := schedule) (l := listen peers w) as (evs & Htr & _ & Hev).
  - intros tasks evs i t evs' s' [Hp He] Hi Hrel.
    pose proof (Forall_lookup_1 _ _ _ _ Hp Hi) as Hpt. simpl in Hpt.
    destruct (hstep_rel_shaped _ _ _ _ Hpt Hrel) as [Hevs Hs'].
    split; [by apply Forall_insert|by apply Forall_app].
  - rewrite Hts. split; [|done]. unfold serve. apply Forall_fmap, Forall_forall. done.
  - exists evs. by rewrite Htr, Ht.
Qed.

(** Every run of the event loop leaves a bracketed list of events. *)
Lemma run_loop_bracketed (schedule : list nat) (l : loop) :
  ∃ evs, trace (l_world (run_loop schedule l)) = trace (l_world l) ++ evs ∧
         bracketed evs.
Proof.
  apply (run_loop_invariant (λ _ evs, bracketed evs)); [|constructor].
  intros tasks evs i t evs' s' Hb Hi Hrel. apply bracketed_app; [done|].
  destruct Hrel; repeat constructor; done.
Qed.

(** C9, as amended. In every run of the server the detector call of one
    handler is entered and left with nothing in between: handlers take turns
    at frame reads and response sends only, and while one connection's
    inference runs no other connection makes progress. *)
Theorem inference_runs_uninterrupted (peers : list Peer) (schedule : list nat) (w : world) :
  ∃ evs,
    trace (l_world (start peers schedule w)) = trace w ++ evs ∧
    bracketed evs.
Proof.
  unfold start. destruct (listen_spec peers w) as (Ht & _ & _).
  destruct (run_loop_bracketed schedule (listen peers w)) as (evs & Htr & Hb).
  exists evs. by rewrite Htr, Ht.
Qed.

End RunProperties.

(** ** Properties of the server state *)

Section StateProperties.
Context `{Collaborators}.

Lemma async_for_same_self ws pending w :
  self (async_for ws pending (loop_body ws) w).2 = self w.
Proof.
  revert w. induction pending as [|m rest IH]; intros w; simpl.
  - by destruct (ws_close ws).
  - destruct (transport_accepts (max_size ws) m); [|done].
    unfold mbind, M_bind. simpl. unfold loop_body at 1, mbind, M_bind.
    pose proof (process_frame_same_self m (emit (EvRecv (ws_id ws) m) w).2) as Hpf.
    destruct (process_frame m _) as [[r|e] w1]; simpl in *; [|done].
    unfold websocket_send.
    destruct (ws_send_result ws _); simpl; [done|]. by rewrite IH.
Qed.

(** The sequential handler adds the connection and takes it out again. *)
Lemma handle_client_clients ws w :
  port (self (handle_client ws w).2) = port (self w) ∧
  model (self (handle_client ws w).2) = model (self w) ∧
  clients (self (handle_client ws w).2) =
    ({[ws_id ws]} ∪ clients (self w)) ∖ {[ws_id ws]}.
Proof.
  unfold handle_client, mbind, M_bind. simpl.
  set (w1 := set_clients _ _).
  unfold guarded, try_finally, try_except.
  pose proof (async_for_same_self ws (ws_incoming ws) w1) as Hs.
  destruct (async_for ws (ws_incoming ws) (loop_body ws) w1) as [[[]|e] w2];
    simpl in Hs; [|destruct (is_ConnectionClosed e)]; simpl;
    unfold clients_remove; simpl; rewrite Hs; simpl;
    (rewrite decide_True by (apply elem_of_union_l, elem_of_singleton; done));
    simpl; rewrite ?Hs; done.
Qed.

(** C7. In every run of the server, whatever the peers and the network do:
    a connection is in the client set exactly while its handler is between
    registration and exit, the run has taken it out once when its handler
    is done and never before, and when no handler is active the set is the
    one the server started with. *)
Theorem connection_removed_exactly_once (peers : list Peer) (schedule : list nat)
    (w : world) :
  NoDup (peer_id <$> peers) ->
  (∀ p, p ∈ peers -> peer_id p ∉ clients (self w)) ->
  let l := start peers schedule w in
  (∀ i t, l_tasks l !! i = Some t ->
     (task_id t ∈ clients (self (l_world l)) ↔ is_active (t_state t) = true) ∧
     loop_removals (task_id t) schedule (listen peers w) =
       if is_done (t_state t) then 1%nat else 0%nat) ∧
  ((∀ t, t ∈ l_tasks l -> is_active (t_state t) = false) ->
   clients (self (l_world l)) = clients (self w)).
Proof.
  intros Hnd Hfresh l. unfold l, start.
  destruct (listen_spec peers w) as (_ & Hself & Hts).
  set (wss := accept (10 * 1024 * 1024) <$> peers).
  assert (Hids : ws_id <$> wss = peer_id <$> peers) by apply serve_ids.
  assert (Hinit : reg_inv (clients (self w)) wss (listen peers w) (λ _, 0%nat)).
  { split; [by rewrite Hts, serve_ws|]. split.
    - intros i t Hi. rewrite Hts in Hi.
      apply serve_lookup in Hi as (p & Hp & Hws & Hst). rewrite Hst, Hself. simpl.
      split; [|done]. split; [|done]. intros Hin. exfalso.
      apply (Hfresh p); [by eapply list_elem_of_lookup_2|].
      unfold task_id in Hin. by rewrite Hws in Hin.
    - intros x _. by rewrite Hself. }
  pose proof (reg_inv_run _ _ schedule _ _ ltac:(by rewrite Hids) Hinit)
    as (Hws & Htasks & Hout).
  split; [intros i t Hi; by apply (Htasks i)|].
  intros Hidle. apply set_eq. intros x.
  destruct (decide (x ∈ ws_id <$> wss)) as [Hin|Hnin]; [|by apply Hout].
  rewrite <- Hws, <- list_fmap_compose in Hin.
  apply list_elem_of_fmap in Hin as (t & -> & Ht).
  pose proof Ht as (i & Hi)%list_elem_of_lookup_1.
  destruct (Htasks i t Hi) as [Hmem _]. fold (task_id t).
  rewrite Hmem, (Hidle t Ht). split; [done|]. intros Hin. exfalso.
  assert (Hp : task_id t ∈ peer_id <$> peers).
  { rewrite <- Hids.
    by apply (task_id_in wss (l_tasks (run_loop schedule (listen peers w))) i t). }
  apply list_elem_of_fmap in Hp as (p & Hpid & Hp).
  apply (Hfresh p Hp). by rewrite <- Hpid.
Qed.

(** C10. [process_frame] leaves [self] as it is: port, model and client
    set. A resumption of the handler leaves port and model as they are and
    changes the client set in two places only: the first resumption adds
    the connection, the one that ends the handler takes it out; and the
    handler as a whole adds the connection and takes it out again. *)
Theorem process_frame_leaves_server_state :
  (∀ image_bytes w, self (process_frame image_bytes w).2 = self w) ∧
  (∀ ws s w,
     port (self (hstep ws s w).2) = port (self w) ∧
     model (self (hstep ws s w).2) = model (self w) ∧
     clients (self (hstep ws s w).2) =
       match s with
       | HStart => {[ws_id ws]} ∪ clients (self w)
       | _ => if is_active s && is_done (hstep ws s w).1
              then clients (self w) ∖ {[ws_id ws]}
              else clients (self w)
       end) ∧
  (∀ ws w,
     port (self (handle_client ws w).2) = port (self w) ∧
     model (self (handle_client ws w).2) = model (self w) ∧
     clients (self (handle_client ws w).2) =
       ({[ws_id ws]} ∪ clients (self w)) ∖ {[ws_id ws]}).
Proof.
  split; [apply process_frame_same_self|].
  split; [apply hstep_self|apply handle_client_clients].
Qed.

Lemma hstep_rel_recv_within ws s evs s' :
  hstep_rel ws s evs s' -> Forall (recv_within (max_size ws)) evs.
Proof.
  destruct 1 as [|r|m rest r Hacc|m rest w0 response mevs Hacc Hpf Hb Hm
                 |p rest|p rest k e r Hk|r]; try by repeat constructor.
  constructor; [by apply Z.leb_le|].
  clear -Hm. induction mevs as [|ev mevs IH]; [done|].
  simpl in Hm. apply andb_prop in Hm as [Hev Hm]. constructor; [by destruct ev|auto].
Qed.

(** C8. The server gives [websockets.serve] a maximum message size of
    10 MiB, and in every run each frame that reaches a handler, and with it
    [process_frame], has at most that size. A larger frame ends the
    connection instead: the handler leaves its loop as for a closed
    connection, nothing is sent, and [process_frame] is not called (the clock
    is not read). *)
Theorem oversized_frames_never_processed :
  (∀ peers schedule w,
     ∃ evs, trace (l_world (start peers schedule w)) = trace w ++ evs ∧
            Forall (recv_within (10 * 2 ^ 20)) evs) ∧
  (∀ ws m rest w,
     max_size ws < message_size m ->
     ws_id ws ∈ clients (self w) ->
     ∃ w', hstep ws (HRecv (m :: rest)) w = (HDone (Returned tt), w') ∧
           trace w' = trace w ∧ clock w' = clock w ∧
           clients (self w') = clients (self w) ∖ {[ws_id ws]}).
Proof.
  split.
  - intros peers schedule w. unfold start.
    destruct (listen_spec peers w) as (Ht & _ & Hts).
    destruct (run_loop_invariant
                (λ tasks evs, Forall (λ t, max_size (t_ws t) = 10 * 2 ^ 20) tasks ∧
                              Forall (recv_within (10 * 2 ^ 20)) evs)) with
      (schedule := schedule) (l := listen peers w) as (evs & Htr & _ & Hev).
    + intros tasks evs i t evs' s' [Hm He] Hi Hrel.
      pose proof (Forall_lookup_1 _ _ _ _ Hm Hi) as Hmt. simpl in Hmt.
      split; [by apply Forall_insert|]. apply Forall_app. split; [done|].
      rewrite <- Hmt. by eapply hstep_rel_recv_within.
    + rewrite Hts. split; [|done]. unfold serve. apply Forall_fmap, Forall_forall. done.
    + exists evs. by rewrite Htr, Ht.
  - intros ws m rest w Hbig Hin. simpl. unfold transport_accepts.
    destruct (Z.leb_spec (message_size m) (max_size ws)) as [?|_]; [lia|].
    unfold leave, guarded, try_finally, try_except, lift, clients_remove, print. simpl.
    rewrite decide_True by done. eexists. split; [reflexivity|]. done.
Qed.

End StateProperties.

(** ** The frame pipeline, step by step *)

Section FrameRun.
Context `{Collaborators}.

(** [process_frame] in full: the response, and the world it leaves. The
    clock is read once when the [try] block fails and twice when it does
    not; the detector is called when the frame decodes. *)
Lemma process_frame_run image_bytes w :
  process_frame image_bytes w =
    let failed e trace' :=
      (Returned (error_response e),
       {| self := self w; stdout := stdout w ++ [LogError e];
          clock := S (clock w); trace := trace' |}) in
    let called := trace w ++ [EvModelEnter; EvModelExit] in
    match decode image_bytes with
    | Raised e => failed e (trace w)
    | Returned frame =>
        match detect (model (self w)) frame with
        | Raised e => failed e called
        | Returned results =>
            match for_boxes results (boxes results) [] with
            | Raised e => failed e called
            | Returned detections =>
                let t := Float.sub64 (time_time (S (clock w))) (time_time (clock w)) in
                (Returned (success_response detections t),
                 {| self := self w;
                    stdout := match detections with
                              | [] => stdout w
                              | _ => stdout w ++ [LogDetected (length detections) t]
                              end;
                    clock := S (S (clock w)); trace := called |})
            end
        end
    end.
Proof.
  unfold process_frame, try_except, process_frame_try, decode, detect, call_model,
    get_model, time, lift, emit, print, try_finally, mbind, M_bind, mret, M_ret. simpl.
  destruct (BytesIO image_bytes) as [buf|e]; [|done].
  destruct (Image_open buf) as [image|e]; [|done].
  destruct (np_array image) as [frame|e]; [|done].
  destruct (cv2_cvtColor_RGB2BGR frame) as [frame'|e]; [|done].
  rewrite <- !app_assoc. simpl.
  destruct (YOLO_call (model (self w)) frame') as [rl|e]; [|done]. simpl.
  destruct (getitem0 rl) as [results|e]; [|done].
  destruct (for_boxes results (boxes results) []) as [ds|e]; [|done].
  by destruct ds.
Qed.

Lemma process_frame_stdout m w :
  ∃ lines, stdout (process_frame m w).2 = stdout w ++ lines ∧
           forallb is_frame_log lines = true.
Proof.
  rewrite process_frame_run.
  destruct (decode m) as [frame|e]; [|by eexists].
  destruct (detect _ frame) as [results|e]; [|by eexists].
  destruct (for_boxes _ _ _) as [[|d ds]|e]; simpl; [exists []|by eexists..].
  by rewrite app_nil_r.
Qed.

(** The loop over the boxes stops at the first box whose class has no
    label. *)
Lemma for_boxes_unlabelled results pre box post acc :
  Forall (λ b, is_Some (names results !! cls0 b)) pre ->
  names results !! cls0 box = None ->
  for_boxes results (pre ++ box :: post) acc = Raised (Exn KeyError (pretty (cls0 box))).
Proof.
  intros Hpre Hbox. revert acc. induction Hpre as [|b pre [n Hn] _ IH]; intros acc; simpl.
  - unfold detection_of, names_getitem. destruct (xyxyn0 box) as [[[x1 y1] x2] y2].
    by rewrite Hbox.
  - unfold detection_of at 1, names_getitem. destruct (xyxyn0 b) as [[[x1 y1] x2] y2].
    rewrite Hn. apply IH.
Qed.

End FrameRun.

(** ** Further properties of the frame pipeline *)

Section FrameProperties.
Context `{Collaborators}.

(** X2. A text frame (a [str] message) is answered with the error dict of
    the [TypeError] that [BytesIO] raises on it; the detector is not
    called, and the server object is untouched. *)
Theorem text_frame_is_answered_with_error (s : string) (w : world) :
  ∃ w',
    process_frame (Text s) w =
      (Returned (PyDict [("status", PyStr "error");
                         ("message", PyStr "a bytes-like object is required, not 'str'");
                         ("detections", PyList [])]), w') ∧
    trace w' = trace w ∧ self w' = self w.
Proof. rewrite process_frame_run. by eexists. Qed.

(** X3. One box whose class index is missing from [results.names] fails
    the whole frame: the response is the error dict of the [KeyError],
    whose message is the index, and the boxes before it, which were mapped
    already, are not reported. *)
Theorem unknown_class_fails_whole_frame (image_bytes : message) (w : world)
    (frame : ndarray) (results : Results) (pre : list Box) (box : Box) (post : list Box) :
  decode image_bytes = Returned frame ->
  detect (model (self w)) frame = Returned results ->
  boxes results = pre ++ box :: post ->
  Forall (λ b, is_Some (names results !! cls0 b)) pre ->
  names results !! cls0 box = None ->
  (process_frame image_bytes w).1 =
    Returned (PyDict [("status", PyStr "error");
                      ("message", PyStr (pretty (cls0 box)));
                      ("detections", PyList [])]).
Proof.
  intros Hdec Hdet Hbs Hpre Hbox.
  rewrite process_frame_run, Hdec, Hdet, Hbs. simpl.
  by rewrite (for_boxes_unlabelled results pre box post [] Hpre Hbox).
Qed.

(** X4. A frame in which the detector finds no box is a success with an
    empty detections list; its inference time is the difference of two
    consecutive clock readings, and nothing is printed. *)
Theorem no_boxes_empty_success (image_bytes : message) (w : world)
    (frame : ndarray) (results : Results) :
  decode image_bytes = Returned frame ->
  detect (model (self w)) frame = Returned results ->
  boxes results = [] ->
  ∃ w',
    process_frame image_bytes w =
      (Returned (PyDict [("status", PyStr "success");
                         ("detections", PyList []);
                         ("inference_time",
                          PyFloat (Float.sub64 (time_time (S (clock w)))
                                               (time_time (clock w))))]), w') ∧
    stdout w' = stdout w ∧ clock w' = S (S (clock w)).
Proof.
  intros Hdec Hdet Hbs. rewrite process_frame_run, Hdec, Hdet, Hbs. simpl. by eexists.
Qed.

(** X5. [process_frame] prints at most one line per frame, and the line
    matches the response: the exception of an error response, the number of
    detections and the inference time of a success that has detections, and
    nothing for a success without detections. *)
Theorem one_log_line_per_frame (image_bytes : message) (w : world) :
  ∃ response w',
    process_frame image_bytes w = (Returned response, w') ∧
    ((∃ e, response = error_response e ∧ stdout w' = stdout w ++ [LogError e]) ∨
     (∃ t, response = success_response [] t ∧ stdout w' = stdout w) ∨
     (∃ detections t,
        detections ≠ [] ∧ response = success_response detections t ∧
        stdout w' = stdout w ++ [LogDetected (length detections) t])).
Proof.
  rewrite process_frame_run.
  destruct (decode image_bytes) as [frame|e]; [|do 2 eexists; split; [done|]; left; eauto].
  destruct (detect _ frame) as [results|e]; [|do 2 eexists; split; [done|]; left; eauto].
  destruct (for_boxes _ _ _) as [ds|e]; [|do 2 eexists; split; [done|]; left; eauto].
  do 2 eexists. split; [done|]. right. destruct ds as [|d ds]; [left; eauto|].
  right. exists (d :: ds). eexists. by repeat split.
Qed.

(** X6. [process_frame] calls the detector once for a frame that decodes
    and not at all for one that does not, and it neither receives nor sends:
    these are all the events it adds. *)
Theorem detector_called_once_per_decoded_frame (image_bytes : message) (w : world) :
  trace (process_frame image_bytes w).2 =
    trace w ++ match decode image_bytes with
               | Returned _ => [EvModelEnter; EvModelExit]
               | Raised _ => []
               end.
Proof.
  rewrite process_frame_run.
  destruct (decode image_bytes) as [frame|e]; [|by rewrite app_nil_r].
  destruct (detect _ frame) as [results|e]; [|done].
  by destruct (for_boxes _ _ _) as [ds|e].
Qed.

End FrameProperties.

(** ** Subtraction and widening *)

Section Subtraction.
Variables prec emax : Z.
Hypothesis prec_pos : 0 < prec.

Lemma valid_binary_finite (s : bool) (m : positive) (e : Z) :
  valid_binary prec emax (S754_finite s m e) = true ->
  emin prec emax <= e ∧ Z.pos (digits2_pos m) <= prec ∧
  (Z.pos (digits2_pos m) = prec ∨ e = emin prec emax).
Proof.
  unfold valid_binary, bounded, canonical_mantissa, fexp.
  intros [Hc He]%andb_prop. apply Z.eqb_eq in Hc. lia.
Qed.

Lemma magnitude_le (m1 m2 : positive) (e1 e2 : Z) :
  valid_binary prec emax (S754_finite false m1 e1) = true ->
  valid_binary prec emax (S754_finite false m2 e2) = true ->
  e1 < e2 ∨ (e1 = e2 ∧ Z.pos m1 <= Z.pos m2) ->
  Z.pos m1 * 2 ^ (e1 - Z.min e1 e2) <= Z.pos m2 * 2 ^ (e2 - Z.min e1 e2).
Proof.
  intros (He1 & Hd1 & Hc1)%valid_binary_finite (He2 & Hd2 & Hc2)%valid_binary_finite
    [Hlt|[-> Hle]].
  - rewrite Z.min_l by lia. rewrite Z.sub_diag. simpl (2 ^ 0).
    destruct Hc2 as [Hdp|]; [|lia].
    pose proof (digits2_pos_bounds m1) as [_ Hb1].
    pose proof (digits2_pos_bounds m2) as [Hb2 _]. rewrite Hdp in Hb2.
    assert (2 ^ Z.pos (digits2_pos m1) <= 2 ^ prec) by (apply Z.pow_le_mono_r; lia).
    assert (Hp : 2 ^ prec = 2 * 2 ^ (prec - 1)).
    { rewrite <- Z.pow_succ_r by lia. f_equal. lia. }
    assert (2 ^ 1 <= 2 ^ (e2 - e1)) by (apply Z.pow_le_mono_r; lia).
    change (2 ^ 1) with 2 in *.
    assert (0 < 2 ^ (prec - 1)) by (apply Z.pow_pos_nonneg; lia).
    nia.
  - rewrite Z.min_id, Z.sub_diag. simpl (2 ^ 0). lia.
Qed.

Lemma SFsub_finite_sign (sx sy : bool) (mx my : positive) (ex ey : Z) :
  emin prec emax <= ex -> emin prec emax <= ey ->
  let ez := Z.min ex ey in
  let z := SpecFloat.cond_Zopp sx (Z.pos mx * 2 ^ (ex - ez)) -
           SpecFloat.cond_Zopp sy (Z.pos my * 2 ^ (ey - ez)) in
  let r := SFsub prec emax (S754_finite sx mx ex) (S754_finite sy my ey) in
  (0 < z -> Float.signed false (emin prec emax) r) ∧ (z = 0 -> r = S754_zero false).
Proof.
  intros Hex Hey ez z r. unfold r, SFsub. fold ez.
  destruct (shl_align_value mx ex ez ltac:(unfold ez; lia)) as [-> _].
  destruct (shl_align_value my ey ez ltac:(unfold ez; lia)) as [-> _].
  fold z. unfold binary_normalize.
  destruct z as [|p|p] eqn:Hz; split; try lia; try done; intros _.
  apply (binary_round_sign prec emax); [done|]. unfold ez. lia.
Qed.

(** [x - y] is not negative when [y <= x], for finite [x] and [y] of any
    one format. *)
Lemma SFsub_nonneg (x y : spec_float) :
  valid_binary prec emax x = true -> valid_binary prec emax y = true ->
  is_finite x = true -> is_finite y = true ->
  SFleb y x = true ->
  SFleb Float.zero (SFsub prec emax x y) = true.
Proof.
  intros Hv2 Hv1 Hf2 Hf1 Hle.
  destruct y as [s1|s1| |s1 m1 e1]; try done;
    destruct x as [s2|s2| |s2 m2 e2]; try done.
  - by destruct s1, s2.
  - by destruct s1.
  - pose proof Hv1 as (He1 & _)%valid_binary_finite.
    pose proof Hv2 as (He2 & _)%valid_binary_finite.
    pose proof (SFsub_finite_sign s2 s1 m2 m1 e2 e1 He2 He1) as (Hpos & Hzero).
    change (valid_binary prec emax (S754_finite false m1 e1) = true) in Hv1.
    change (valid_binary prec emax (S754_finite false m2 e2) = true) in Hv2.
    unfold SFleb, SFcompare in Hle.
    pose proof (magnitude_le m2 m1 e2 e1 Hv2 Hv1) as H21.
    pose proof (magnitude_le m1 m2 e1 e2 Hv1 Hv2) as H12.
    rewrite (Z.min_comm e1 e2) in H12.
    pose proof (Z.pow_pos_nonneg 2 (e2 - Z.min e2 e1) ltac:(done) ltac:(lia)).
    pose proof (Z.pow_pos_nonneg 2 (e1 - Z.min e2 e1) ltac:(done) ltac:(lia)).
    set (z := SpecFloat.cond_Zopp s2 (Z.pos m2 * 2 ^ (e2 - Z.min e2 e1)) -
              SpecFloat.cond_Zopp s1 (Z.pos m1 * 2 ^ (e1 - Z.min e2 e1))) in *.
    assert (Hz : 0 <= z).
    { unfold z. destruct s1, s2; simpl; try done.
      - destruct (Z.compare_spec e1 e2) as [->|?|?]; try done.
        + destruct (Pos.compare_cont Eq m1 m2) eqn:Hc; try done.
          * apply compare_cont_eq in Hc. subst. lia.
          * apply compare_cont_gt in Hc. lia.
        + lia.
      - nia.
      - destruct (Z.compare_spec e1 e2) as [->|?|?]; try done.
        + destruct (Pos.compare_cont Eq m1 m2) eqn:Hc; try done.
          * apply compare_cont_eq in Hc. subst. lia.
          * apply compare_cont_lt in Hc. lia.
        + lia. }
    destruct (Z.eq_dec z 0) as [Hz0|Hz0].
    + by rewrite (Hzero Hz0).
    + apply (signed_nonneg _ (emin prec emax)), Hpos. lia.
Qed.

End Subtraction.

Lemma finite64_spec (x : spec_float) :
  finite64 x = true -> valid_binary 53 1024 x = true ∧ is_finite x = true.
Proof. by intros [Hv Hf]%andb_prop. Qed.

(** [float] of a binary32 number is that number, as a binary64 number: the
    mantissa is shifted to 53 bits and the exponent lowered by as much. *)
Lemma float_exact (x : spec_float) :
  Float.valid32 x = true ->
  same_number x (Float.float x) ∧ Float.valid64 (Float.float x) = true.
Proof.
  intros Hv. destruct x as [s|s| |s m e]; try done.
  apply valid32_finite in Hv as (He & Hd & _).
  rewrite float_finite by done.
  assert (Hk : Z.pos (53 - digits2_pos m) = 53 - Z.pos (digits2_pos m)).
  { rewrite Pos2Z.inj_sub by lia. done. }
  split.
  - simpl. split; [done|]. rewrite Z.min_r by lia. rewrite iter_xO_value.
    replace (e - (e - Z.pos (53 - digits2_pos m))) with (Z.pos (53 - digits2_pos m)) by lia.
    rewrite Z.sub_diag. simpl (2 ^ 0). lia.
  - unfold Float.valid64, valid_binary, bounded, canonical_mantissa, fexp, emin,
      Float.prec64, Float.emax64.
    rewrite iter_xO_digits, Pos2Z.inj_add, Hk.
    apply andb_true_intro. split; [apply Z.eqb_eq|apply Z.leb_le]; lia.
Qed.

(** ** Properties of the numbers in a response *)

Section NumberProperties.
Context `{Collaborators}.

(** X7. The inference time of a success response is the second clock
    reading minus the first, and it is not negative when the clock did not
    go back between the two (both readings finite). [time.time()] is the
    wall clock, so this is a condition and not a given. *)
Theorem inference_time_not_negative (image_bytes : message) (w : world) (response : pyobj) :
  (process_frame image_bytes w).1 = Returned response ->
  dict_get "status" response = Some (PyStr "success") ->
  finite64 (time_time (clock w)) = true ->
  finite64 (time_time (S (clock w))) = true ->
  SFleb (time_time (clock w)) (time_time (S (clock w))) = true ->
  ∃ t,
    dict_get "inference_time" response = Some (PyFloat t) ∧
    t = Float.sub64 (time_time (S (clock w))) (time_time (clock w)) ∧
    SFleb Float.zero t = true.
Proof.
  intros Hr Hs [Hv0 Hf0]%finite64_spec [Hv1 Hf1]%finite64_spec Hle.
  rewrite process_frame_run in Hr.
  destruct (decode image_bytes) as [frame|e]; [|by simplify_eq/=].
  destruct (detect _ frame) as [results|e]; [|by simplify_eq/=].
  destruct (for_boxes _ _ _) as [ds|e]; [|by simplify_eq/=].
  simpl in Hr. injection Hr as <-. eexists. split; [reflexivity|]. split; [done|].
  by apply (SFsub_nonneg 53 1024).
Qed.

(** X8. In a success response, detection [i] carries the label that
    [results.names] gives to the class of box [i], and the corner [x1],
    [y1] of that box as [x] and [y]: the same numbers, since the conversion
    of a binary32 value by [float] is exact. *)
Theorem detections_carry_label_and_corner (image_bytes : message) (w : world)
    (frame : ndarray) (results : Results) (response : pyobj) :
  decode image_bytes = Returned frame ->
  detect (model (self w)) frame = Returned results ->
  (process_frame image_bytes w).1 = Returned response ->
  dict_get "status" response = Some (PyStr "success") ->
  ∃ detections,
    dict_get "detections" response = Some (PyList detections) ∧
    ∀ i box, boxes results !! i = Some box ->
      ∃ d label x y,
        detections !! i = Some d ∧
        names results !! cls0 box = Some label ∧
        dict_get "className" d = Some (PyStr label) ∧
        dict_get "x" d = Some (PyFloat x) ∧
        dict_get "y" d = Some (PyFloat y) ∧
        (Float.valid32 (xyxyn0 box).1.1.1 = true ->
         same_number (xyxyn0 box).1.1.1 x ∧ Float.valid64 x = true) ∧
        (Float.valid32 (xyxyn0 box).1.1.2 = true ->
         same_number (xyxyn0 box).1.1.2 y ∧ Float.valid64 y = true).
Proof.
  intros Hdec Hdet Hr Hs. rewrite process_frame_run, Hdec, Hdet in Hr.
  destruct (for_boxes _ _ _) as [ds|e] eqn:Hfor; [|by simplify_eq/=].
  simpl in Hr. injection Hr as <-. exists ds. split; [done|].
  apply for_boxes_spec in Hfor as (ds' & -> & Hall). simpl.
  intros i box Hi.
  destruct (Forall2_lookup_l _ _ _ _ _ Hall Hi) as (d & Hd & Hof).
  apply detection_of_spec in Hof as (label & Hlabel & ->).
  do 4 eexists. split; [exact Hd|]. split; [exact Hlabel|].
  do 3 (split; [reflexivity|]). split; apply float_exact.
Qed.

End NumberProperties.

(** ** The sequential handler, turn by turn *)

Section HandlerRun.
Context `{Collaborators}.

(** One turn of the [async for] loop on an accepted frame. *)
Lemma async_for_cons ws m rest w :
  transport_accepts (max_size ws) m = true ->
  ∃ response w1 mevs lines,
    process_frame m (emit (EvRecv (ws_id ws) m) w).2 = (Returned response, w1) ∧
    trace w1 = trace w ++ EvRecv (ws_id ws) m :: mevs ∧
    forallb is_model_event mevs = true ∧
    stdout w1 = stdout w ++ lines ∧
    forallb is_frame_log lines = true ∧
    async_for ws (m :: rest) (loop_body ws) w =
      match ws_send_result ws (count_sent (ws_id ws) (trace w1)) with
      | Some e => (Raised e, w1)
      | None =>
          async_for ws rest (loop_body ws)
            (emit (EvSend (ws_id ws) (json_dumps response)) w1).2
      end.
Proof.
  intros Hacc. set (w0 := (emit (EvRecv (ws_id ws) m) w).2).
  destruct (process_frame_returns m w0) as (r & w1 & Hr).
  pose proof (process_frame_model_events m w0) as (mevs & Ht & _ & Hf).
  pose proof (process_frame_stdout m w0) as (lines & Hout & Hlines).
  rewrite Hr in Ht, Hout. simpl in Ht, Hout.
  exists r, w1, mevs, lines. split; [done|]. split; [by rewrite Ht, <- app_assoc|].
  do 3 (split; [done|]).
  change (async_for ws (m :: rest) (loop_body ws) w) with
    ((if transport_accepts (max_size ws) m
      then emit (EvRecv (ws_id ws) m);; loop_body ws m;; async_for ws rest (loop_body ws)
      else raise message_too_big) w).
  rewrite Hacc. unfold mbind, M_bind. simpl.
  unfold loop_body at 1, mbind, M_bind. unfold w0 in Hr. simpl in Hr. rewrite Hr.
  unfold websocket_send. by destruct (ws_send_result ws _).
Qed.

(** What the loop prints, and the three ways in which it ends: as the
    stream does, on a frame that the transport rejects, or on a send that
    fails. *)
Lemma async_for_run ws pending w :
  ∃ lines,
    stdout (async_for ws pending (loop_body ws) w).2 = stdout w ++ lines ∧
    forallb is_frame_log lines = true ∧
    ((async_for ws pending (loop_body ws) w).1 = close_outcome ws ∨
     (async_for ws pending (loop_body ws) w).1 = Raised message_too_big ∨
     ∃ k e, ws_send_result ws k = Some e ∧
            (async_for ws pending (loop_body ws) w).1 = Raised e).
Proof.
  revert w. induction pending as [|m rest IH]; intros w.
  - exists []. rewrite app_nil_r. simpl. unfold close_outcome.
    destruct (ws_close ws); simpl; auto.
  - destruct (transport_accepts (max_size ws) m) eqn:Hacc.
    + destruct (async_for_cons ws m rest w Hacc)
        as (r & w1 & mevs & lines & _ & _ & _ & Hout & Hlines & ->).
      destruct (ws_send_result ws _) as [e|] eqn:Hsend.
      * exists lines. simpl. split; [done|]. split; [done|]. right. right. eauto.
      * set (w2 := (emit (EvSend (ws_id ws) (json_dumps r)) w1).2).
        destruct (IH w2) as (lines' & Hout' & Hlines' & Hend).
        exists (lines ++ lines'). rewrite Hout'. change (stdout w2) with (stdout w1).
        rewrite Hout, <- app_assoc.
        split; [done|]. split; [|done]. rewrite forallb_app. by rewrite Hlines, Hlines'.
    + simpl. rewrite Hacc. exists []. rewrite app_nil_r. simpl. auto.
Qed.

(** The loop on a connection whose sends all complete and whose frames are
    all within the size limit. *)
Lemma async_for_healthy ws pending w :
  (∀ k, ws_send_result ws k = None) ->
  Forall (λ m, transport_accepts (max_size ws) m = true) pending ->
  ∃ evs ans,
    (async_for ws pending (loop_body ws) w).1 = close_outcome ws ∧
    trace (async_for ws pending (loop_body ws) w).2 = trace w ++ evs ∧
    conn_trace (ws_id ws) evs = exchanges (ws_id ws) ans ∧
    ans.*1 = pending ∧
    Forall (λ mp, answers mp.1 mp.2) ans.
Proof.
  intros Hsend Hall. revert w. induction Hall as [|m rest Hacc _ IH]; intros w.
  - exists [], []. rewrite app_nil_r. simpl. unfold close_outcome.
    by destruct (ws_close ws).
  - destruct (async_for_cons ws m rest w Hacc)
      as (r & w1 & mevs & lines & Hr & Ht & Hmevs & _ & _ & ->).
    rewrite Hsend.
    set (w2 := (emit (EvSend (ws_id ws) (json_dumps r)) w1).2).
    destruct (IH w2) as (evs & ans & Hend & Htr & Hct & Hans & Hanswers).
    exists (EvRecv (ws_id ws) m :: mevs ++ EvSend (ws_id ws) (json_dumps r) :: evs),
      ((m, json_dumps r) :: ans).
    split; [done|]. split.
    { rewrite Htr. change (trace w2) with (trace w1 ++ [EvSend (ws_id ws) (json_dumps r)]).
      rewrite Ht, <- !app_assoc. done. }
    split.
    { change (EvRecv (ws_id ws) m :: mevs ++ EvSend (ws_id ws) (json_dumps r) :: evs)
        with ([EvRecv (ws_id ws) m] ++ mevs ++ [EvSend (ws_id ws) (json_dumps r)] ++ evs).
      rewrite !conn_trace_app, (conn_trace_model _ mevs Hmevs), Hct.
      unfold conn_trace, exchanges. simpl.
      rewrite !filter_cons_True by done. by rewrite !filter_nil. }
    split; [by rewrite fmap_cons, Hans|].
    constructor; [|done]. simpl. eexists _, r. by rewrite Hr.
Qed.

Lemma guarded_run ws (m : M unit) w r w1 :
  m w = (r, w1) -> guarded ws m w = guarded ws (lift r) w1.
Proof. intros Hm. unfold guarded, try_finally, try_except, lift. by rewrite Hm. Qed.

(** Leaving the [try] block of a registered connection. *)
Lemma guarded_registered ws r w :
  ws_id ws ∈ clients (self w) ->
  ∃ w', guarded ws (lift r) w = (settle r, w') ∧
        trace w' = trace w ∧
        clients (self w') = clients (self w) ∖ {[ws_id ws]} ∧
        stdout w' = stdout w ++
          match r with
          | Raised e =>
              if is_ConnectionClosed e
              then [LogClientDisconnected (remote_address ws).1] else []
          | Returned _ => []
          end.
Proof.
  intros Hin.
  unfold guarded, try_finally, try_except, lift, clients_remove, print, settle.
  destruct r as [[]|e]; simpl; [|destruct (is_ConnectionClosed e); simpl];
    rewrite decide_True by done; eexists; (split; [reflexivity|]); simpl;
    by rewrite ?app_nil_r.
Qed.

(** [handle_client] in terms of its loop. *)
Lemma handle_client_run ws w :
  let w1 := (clients_add ws (print (LogClientConnected (remote_address ws).1) w).2).2 in
  let a := async_for ws (ws_incoming ws) (loop_body ws) w1 in
  (handle_client ws w).1 = settle a.1 ∧
  trace (handle_client ws w).2 = trace a.2 ∧
  stdout (handle_client ws w).2 =
    stdout a.2 ++
      match a.1 with
      | Raised e =>
          if is_ConnectionClosed e
          then [LogClientDisconnected (remote_address ws).1] else []
      | Returned _ => []
      end.
Proof.
  intros w1 a.
  change (handle_client ws w) with
    (guarded ws (async_for ws (ws_incoming ws) (loop_body ws)) w1).
  rewrite (guarded_run ws _ w1 a.1 a.2) by (unfold a; by destruct (async_for _ _ _ _)).
  destruct (guarded_registered ws a.1 a.2) as (w' & -> & Ht & _ & Hout); [|done].
  unfold a. rewrite async_for_same_self. unfold w1. simpl.
  apply elem_of_union_l, elem_of_singleton. done.
Qed.

End HandlerRun.

(** ** Further properties of the handler *)

Section HandlerProperties.
Context `{Collaborators}.

(** X9. [handle_client] returns normally or raises an exception that is
    not a [ConnectionClosed] and that came from the connection: from the end
    of the stream or from a send. Nothing that happens inside
    [process_frame] leaves the handler, and the removal in [finally] never
    raises [KeyError], since the handler added the connection itself. *)
Theorem handle_client_outcome (ws : WebSocket) (w : world) :
  (handle_client ws w).1 = Returned tt ∨
  ∃ e, (handle_client ws w).1 = Raised e ∧
       is_ConnectionClosed e = false ∧
       (ws_close ws = Some e ∨ ∃ k, ws_send_result ws k = Some e).
Proof.
  destruct (handle_client_run ws w) as (-> & _ & _).
  destruct (async_for_run ws (ws_incoming ws)
              (clients_add ws (print (LogClientConnected (remote_address ws).1) w).2).2)
    as (_ & _ & _ & [Hend|[Hend|(k & e & Hk & Hend)]]); rewrite Hend.
  - unfold close_outcome. destruct (ws_close ws) as [e|]; [|by left]. simpl.
    destruct (is_ConnectionClosed e) eqn:Hcc; [by left|]. right. eauto.
  - by left.
  - simpl. destruct (is_ConnectionClosed e) eqn:Hcc; [by left|]. right.
    exists e. split; [done|]. split; [done|]. right. by exists k.
Qed.

(** X10. On a connection whose sends all complete and whose frames are
    all within the size limit, the handler answers every frame: the events
    of the connection are all its frames, in order, each followed by the
    response to it. It then ends as the stream does: it returns when the
    stream stops or raises [ConnectionClosed], and re-raises anything
    else. *)
Theorem every_frame_is_answered (ws : WebSocket) (w : world) :
  (∀ k, ws_send_result ws k = None) ->
  Forall (λ m, transport_accepts (max_size ws) m = true) (ws_incoming ws) ->
  ∃ evs ans,
    trace (handle_client ws w).2 = trace w ++ evs ∧
    conn_trace (ws_id ws) evs = exchanges (ws_id ws) ans ∧
    ans.*1 = ws_incoming ws ∧
    Forall (λ mp, answers mp.1 mp.2) ans ∧
    (handle_client ws w).1 =
      match ws_close ws with
      | None => Returned tt
      | Some e => if is_ConnectionClosed e then Returned tt else Raised e
      end.
Proof.
  intros Hsend Hacc.
  destruct (handle_client_run ws w) as (-> & -> & _).
  destruct (async_for_healthy ws (ws_incoming ws)
              (clients_add ws (print (LogClientConnected (remote_address ws).1) w).2).2
              Hsend Hacc)
    as (evs & ans & -> & -> & Hct & Hans & Hanswers).
  exists evs, ans. do 4 (split; [done|]).
  unfold close_outcome. by destruct (ws_close ws).
Qed.

(** X11. What the handler prints on such a connection: the line of the
    connect first, then the lines of [process_frame] only, and the line of
    the disconnect last exactly when the stream ended with
    [ConnectionClosed]. A stream that just stops, as after a normal closing
    handshake, leaves no disconnect line. *)
Theorem disconnect_line_only_for_ConnectionClosed (ws : WebSocket) (w : world) :
  (∀ k, ws_send_result ws k = None) ->
  Forall (λ m, transport_accepts (max_size ws) m = true) (ws_incoming ws) ->
  ∃ lines,
    stdout (handle_client ws w).2 =
      stdout w ++ LogClientConnected (remote_address ws).1 :: lines ++
        match ws_close ws with
        | Some e =>
            if is_ConnectionClosed e
            then [LogClientDisconnected (remote_address ws).1] else []
        | None => []
        end ∧
    forallb is_frame_log lines = true.
Proof.
  intros Hsend Hacc.
  destruct (handle_client_run ws w) as (_ & _ & ->).
  destruct (async_for_healthy ws (ws_incoming ws)
              (clients_add ws (print (LogClientConnected (remote_address ws).1) w).2).2
              Hsend Hacc)
    as (_ & _ & -> & _).
  destruct (async_for_run ws (ws_incoming ws)
              (clients_add ws (print (LogClientConnected (remote_address ws).1) w).2).2)
    as (lines & -> & Hlines & _).
  exists lines. split; [|done]. simpl. rewrite <- !app_assoc. simpl.
  unfold close_outcome. by destruct (ws_close ws).
Qed.

(** X12. A send that fails ends the handler at once: nothing is recorded
    as sent, the frames that are still to come are not read, the connection
    leaves the client set, and the handler returns normally for a
    [ConnectionClosed] (after printing the disconnect line) and re-raises
    any other exception. *)
Theorem failed_send_ends_the_handler (ws : WebSocket) (payload : string)
    (rest : list message) (e : exn) (w : world) :
  ws_send_result ws (count_sent (ws_id ws) (trace w)) = Some e ->
  ws_id ws ∈ clients (self w) ->
  ∃ w',
    hstep ws (HSend payload rest) w =
      (HDone (if is_ConnectionClosed e then Returned tt else Raised e), w') ∧
    trace w' = trace w ∧
    clients (self w') = clients (self w) ∖ {[ws_id ws]} ∧
    stdout w' = stdout w ++
      if is_ConnectionClosed e
      then [LogClientDisconnected (remote_address ws).1] else [].
Proof.
  intros Hsend Hin. simpl. unfold websocket_send. rewrite Hsend. unfold leave.
  destruct (guarded_registered ws (Raised e) w Hin) as (w' & -> & Ht & Hc & Hout).
  exists w'. done.
Qed.

End HandlerProperties.

(** ** Further properties of the event loop *)

Section LoopProperties.
Context `{Collaborators}.

(** X13. A resumption of one handler adds no event to any other
    connection: what a peer has received and sent changes only when its own
    handler runs. *)
Theorem resumption_leaves_other_connections (l : loop) (i : nat) (t : task) (id : nat) :
  l_tasks l !! i = Some t ->
  task_id t ≠ id ->
  conn_trace id (trace (l_world (loop_step l i))) = conn_trace id (trace (l_world l)).
Proof.
  intros Hi Hid.
  destruct (loop_step_spec l i) as [[Hnone _]|(t' & Hi' & -> & _)]; [congruence|].
  assert (t' = t) as -> by congruence.
  destruct (hstep_sound (t_ws t) (t_state t) (l_world l)) as (evs & -> & Hrel).
  by rewrite conn_trace_app, (hstep_rel_other _ _ _ _ id Hrel Hid), app_nil_r.
Qed.

(** X14. A handler ends within two resumptions per frame and two more: in
    every run in which the event loop resumes the handler of a peer that
    often, the handler has returned or raised, whatever the frames contain,
    whatever the collaborators return or raise on them and however the other
    handlers are interleaved. *)
Theorem handler_ends_within_its_frames (peers : list Peer) (schedule : list nat)
    (w : world) (i : nat) (p : Peer) :
  peers !! i = Some p ->
  (2 * length (peer_frames p) + 2 <= resumptions i schedule)%nat ->
  ∃ t r, l_tasks (start peers schedule w) !! i = Some t ∧
         task_id t = peer_id p ∧
         t_state t = HDone r.
Proof.
  intros Hp Hfuel. unfold start.
  destruct (listen_spec peers w) as (_ & _ & Hts).
  assert (Hi : l_tasks (listen peers w) !! i =
               Some {| t_ws := accept (10 * 1024 * 1024) p; t_state := HStart |}).
  { rewrite Hts. unfold serve. by rewrite list_lookup_fmap, Hp. }
  destruct (run_loop_remaining schedule _ i _ Hi) as (t & Ht & Hws & Hrem).
  simpl in Hrem.
  destruct (remaining_done (accept (10 * 1024 * 1024) p) (t_state t)) as [r Hr]; [lia|].
  exists t, r. split; [done|]. split; [|done]. unfold task_id. by rewrite Hws.
Qed.

Lemma run_loop_alone n ws : ∀ s w,
  run_loop (replicate n 0%nat)
    {| l_world := w; l_tasks := [{| t_ws := ws; t_state := s |}] |} =
  {| l_world := (run_handler n ws s w).2;
     l_tasks := [{| t_ws := ws; t_state := (run_handler n ws s w).1 |}] |}.
Proof.
  induction n as [|n IH]; intros s w; [done|].
  change (replicate (S n) 0%nat) with (0%nat :: replicate n 0%nat).
  rewrite run_loop_cons. unfold loop_step. simpl.
  destruct (hstep ws s w) as [s' w']. simpl. apply IH.
Qed.

(** X15. A connection that is served alone is served as [handle_client]
    reads from top to bottom: once the event loop has resumed its handler
    twice per frame and twice more, the handler is done with the result of
    the sequential handler, and the server, the output, the clock and the
    events are the ones the sequential handler leaves. *)
Theorem lone_connection_is_served_sequentially (p : Peer) (n : nat) (w : world) :
  (2 * length (peer_frames p) + 2 <= n)%nat ->
  let ws := accept (10 * 1024 * 1024) p in
  let w0 := (print (LogBanner (port (self w))) w).2 in
  start [p] (replicate n 0%nat) w =
    {| l_world := (handle_client ws w0).2;
       l_tasks := [{| t_ws := ws; t_state := HDone (handle_client ws w0).1 |}] |}.
Proof.
  intros Hn ws w0. unfold start.
  change (listen [p] w) with
    {| l_world := w0; l_tasks := [{| t_ws := ws; t_state := HStart |}] |}.
  rewrite run_loop_alone, (run_handler_handle_client ws w0 n) by exact Hn.
  by destruct (handle_client ws w0).
Qed.

End LoopProperties.

(** ** Properties of the start-up *)

Section MainProperties.
Context `{Collaborators}.

(** X16. The server that [main] builds starts with an empty client set,
    and in every run its client set is exactly the set of the connections
    whose handlers are between registration and exit: no connection is
    missing, and none stays behind. *)
Theorem clients_are_the_active_connections `{Torch} (args : Args) (peers : list Peer)
    (schedule : list nat) (lines : list device_line) (l : loop) :
  NoDup (peer_id <$> peers) ->
  main args peers schedule = (lines, Returned l) ->
  ∀ id, id ∈ clients (self (l_world l)) ↔
        ∃ t, t ∈ l_tasks l ∧ task_id t = id ∧ is_active (t_state t) = true.
Proof.
  intros Hnd Hmain. unfold main in Hmain.
  destruct (select_device args) as [lines' args'].
  unfold init in Hmain. destruct (YOLO_load (args_model args')) as [detector|e]; [|done].
  injection Hmain as _ <-.
  set (w := boot _ _). unfold start.
  destruct (listen_spec peers w) as (_ & Hself & Hts).
  set (wss := accept (10 * 1024 * 1024) <$> peers).
  assert (Hids : ws_id <$> wss = peer_id <$> peers) by apply serve_ids.
  assert (Hinit : reg_inv ∅ wss (listen peers w) (λ _, 0%nat)).
  { split; [by rewrite Hts, serve_ws|]. split.
    - intros i t Hi. rewrite Hts in Hi.
      apply serve_lookup in Hi as (p & Hp & Hws & Hst). rewrite Hst, Hself. simpl.
      split; [|done]. split; [|done]. intros Hin. by apply not_elem_of_empty in Hin.
    - intros x _. by rewrite Hself. }
  pose proof (reg_inv_run _ _ schedule _ _ ltac:(by rewrite Hids) Hinit)
    as (Hws & Htasks & Hout).
  intros id. split.
  - intros Hin. destruct (decide (id ∈ ws_id <$> wss)) as [Hid|Hid].
    + rewrite <- Hws, <- list_fmap_compose in Hid.
      apply list_elem_of_fmap in Hid as (t & -> & Ht).
      pose proof Ht as (i & Hi)%list_elem_of_lookup_1.
      exists t. split; [done|]. split; [done|]. by apply (Htasks i).
    + apply (Hout id Hid) in Hin. by apply not_elem_of_empty in Hin.
  - intros (t & Ht & <- & Hact).
    pose proof Ht as (i & Hi)%list_elem_of_lookup_1. by apply (Htasks i).
Qed.

End MainProperties.

(** ** The model at work

    The statements above at concrete inputs, with the collaborators of
    [Toy]: each theorem that has hypotheses is applied where they hold, and
    each claim that the code does not meet is evaluated where it fails. *)

Import Toy.

(** The two peers have different identities. *)
Lemma two_peers_distinct : NoDup (peer_id <$> [alice; bob]).
Proof. apply (bool_decide_unpack _). vm_compute. reflexivity. Defined.

(** C2 at two peers that are served in turn. *)
Lemma one_response_per_frame_in_order_witness :
  NoDup (peer_id <$> [alice; bob]) ∧
  [alice; bob] !! 0%nat = Some alice ∧
  ∃ evs t ans unanswered,
    trace (l_world (start [alice; bob] round_robin world0)) = trace world0 ++ evs ∧
    l_tasks (start [alice; bob] round_robin world0) !! 0%nat = Some t ∧
    conn_trace (peer_id alice) evs =
      exchanges (peer_id alice) ans ++ (EvRecv (peer_id alice) <$> unanswered) ∧
    (ans.*1 ++ unanswered) `prefix_of` peer_frames alice ∧
    Forall (λ mp, answers mp.1 mp.2) ans ∧
    (unanswered = [] ∨
     ∃ m, unanswered = [m] ∧
          ((∃ payload rest, t_state t = HSend payload rest) ∨
           (∃ r k e, t_state t = HDone r ∧ peer_send_result alice k = Some e))) ∧
    (∀ r, t_state t = HDone r ->
       (ans.*1 = peer_frames alice ∧ unanswered = []) ∨
       (∃ m rest, peer_frames alice = ans.*1 ++ m :: rest ∧ unanswered = [] ∧
                  transport_accepts (10 * 1024 * 1024) m = false) ∨
       (∃ m rest k e, peer_frames alice = ans.*1 ++ m :: rest ∧ unanswered = [m] ∧
                      peer_send_result alice k = Some e)) ∧
    ((2 * length (peer_frames alice) + 2 <= resumptions 0 round_robin)%nat ->
     ∃ r, t_state t = HDone r).
Proof.
  split; [exact two_peers_distinct|]. split; [reflexivity|].
  apply (one_response_per_frame_in_order [alice; bob] round_robin world0 0 alice);
    [exact two_peers_distinct|reflexivity].
Defined.

(** C3 at a frame with two boxes. *)
Lemma detections_match_boxes_witness :
  decode two_boxes = Returned [Byte.x01; Byte.x02] ∧
  detect (model (self world0)) [Byte.x01; Byte.x02] = Returned two_boxes_results ∧
  (process_frame two_boxes world0).1 = Returned two_boxes_response ∧
  dict_get "status" two_boxes_response = Some (PyStr "success") ∧
  ∃ detections,
    dict_get "detections" two_boxes_response = Some (PyList detections) ∧
    length detections = length (boxes two_boxes_results) ∧
    ∀ i box, boxes two_boxes_results !! i = Some box ->
      ∃ d confidence,
        detections !! i = Some d ∧
        dict_get "width" d =
          Some (PyFloat (Float.float (Float.sub32 (xyxyn0 box).1.2 (xyxyn0 box).1.1.1))) ∧
        dict_get "height" d =
          Some (PyFloat (Float.float (Float.sub32 (xyxyn0 box).2 (xyxyn0 box).1.1.2))) ∧
        dict_get "confidence" d = Some (PyFloat confidence) ∧
        confidence = Float.float (conf0 box) ∧
        (Float.valid32 (conf0 box) = true -> Float.in_unit32 (conf0 box) = true ->
         Float.in_unit64 confidence = true).
Proof.
  assert (H1 : decode two_boxes = Returned [Byte.x01; Byte.x02]) by reflexivity.
  assert (H2 : detect (model (self world0)) [Byte.x01; Byte.x02] =
               Returned two_boxes_results) by reflexivity.
  assert (H3 : (process_frame two_boxes world0).1 = Returned two_boxes_response)
    by (vm_compute; reflexivity).
  assert (H4 : dict_get "status" two_boxes_response = Some (PyStr "success"))
    by reflexivity.
  repeat (split; [assumption|]).
  exact (detections_match_boxes two_boxes world0 _ _ _ H1 H2 H3 H4).
Defined.


(** C5 as stated fails: a box with [x2 < x1] and [y2 < y1], corners 0.75
    and 0.25, is mapped to the width and the height -0.5, not to zero. *)
Lemma inverted_box_negative_width :
  SFltb (xyxyn0 inverted_box).1.2 (xyxyn0 inverted_box).1.1.1 = true ∧
  (process_frame (Binary [Byte.x02]) world0).1 =
    Returned (PyDict [
      ("status", PyStr "success");
      ("detections", PyList [PyDict [
         ("className", PyStr "person");
         ("confidence", PyFloat (S754_finite false 4503599627370496 (-53)));
         ("x", PyFloat (S754_finite false 6755399441055744 (-53)));
         ("y", PyFloat (S754_finite false 6755399441055744 (-53)));
         ("width", PyFloat (S754_finite true 4503599627370496 (-53)));
         ("height", PyFloat (S754_finite true 4503599627370496 (-53)))]]);
      ("inference_time", PyFloat (S754_finite false 4503599627370496 (-52)))]) ∧
  Float.negative (S754_finite true 4503599627370496 (-53)) = true.
Proof. repeat split; vm_compute; reflexivity. Qed.

(** C5, as amended, at that box. *)
Lemma width_height_follow_corners_witness :
  detection_of two_boxes_results inverted_box = Returned inverted_detection ∧
  Float.finite32 (xyxyn0 inverted_box).1.1.1 = true ∧
  Float.finite32 (xyxyn0 inverted_box).1.1.2 = true ∧
  Float.finite32 (xyxyn0 inverted_box).1.2 = true ∧
  Float.finite32 (xyxyn0 inverted_box).2 = true ∧
  ∃ width height,
    dict_get "width" inverted_detection = Some (PyFloat width) ∧
    dict_get "height" inverted_detection = Some (PyFloat height) ∧
    width = Float.float (Float.sub32 (xyxyn0 inverted_box).1.2 (xyxyn0 inverted_box).1.1.1) ∧
    height = Float.float (Float.sub32 (xyxyn0 inverted_box).2 (xyxyn0 inverted_box).1.1.2) ∧
    (SFltb (xyxyn0 inverted_box).1.2 (xyxyn0 inverted_box).1.1.1 = true ->
     Float.negative width = true) ∧
    (SFleb (xyxyn0 inverted_box).1.1.1 (xyxyn0 inverted_box).1.2 = true ->
     SFleb Float.zero width = true) ∧
    (SFltb (xyxyn0 inverted_box).2 (xyxyn0 inverted_box).1.1.2 = true ->
     Float.negative height = true) ∧
    (SFleb (xyxyn0 inverted_box).1.1.2 (xyxyn0 inverted_box).2 = true ->
     SFleb Float.zero height = true).
Proof.
  split; [vm_compute; reflexivity|]. do 4 (split; [reflexivity|]).
  apply (width_height_follow_corners two_boxes_results inverted_box inverted_detection);
    [vm_compute; reflexivity|reflexivity..].
Defined.

(** C6 as stated fails: the detection of a response has the key
    [className] and no key [label]. *)
Lemma detection_keyed_className :
  ∃ d,
    (process_frame (Binary [Byte.x01]) world0).1 =
      Returned (PyDict [("status", PyStr "success");
                        ("detections", PyList [d]);
                        ("inference_time",
                         PyFloat (S754_finite false 4503599627370496 (-52)))]) ∧
    dict_keys d = ["className"; "confidence"; "x"; "y"; "width"; "height"] ∧
    dict_get "className" d = Some (PyStr "person") ∧
    dict_get "label" d = None.
Proof. eexists. split; [vm_compute; reflexivity|]. repeat split. Qed.

(** C7 at two peers that are served in turn. *)
Lemma connection_removed_exactly_once_witness :
  NoDup (peer_id <$> [alice; bob]) ∧
  (∀ p, p ∈ [alice; bob] -> peer_id p ∉ clients (self world0)) ∧
  let l := start [alice; bob] round_robin world0 in
  (∀ i t, l_tasks l !! i = Some t ->
     (task_id t ∈ clients (self (l_world l)) ↔ is_active (t_state t) = true) ∧
     loop_removals (task_id t) round_robin (listen [alice; bob] world0) =
       if is_done (t_state t) then 1%nat else 0%nat) ∧
  ((∀ t, t ∈ l_tasks l -> is_active (t_state t) = false) ->
   clients (self (l_world l)) = clients (self world0)).
Proof.
  assert (Hfresh : ∀ p, p ∈ [alice; bob] -> peer_id p ∉ clients (self world0)).
  { intros p _. apply not_elem_of_empty. }
  split; [exact two_peers_distinct|]. split; [exact Hfresh|].
  exact (connection_removed_exactly_once [alice; bob] round_robin world0
           two_peers_distinct Hfresh).
Defined.

(** C8 at a frame of five bytes on a connection limited to four. *)
Lemma oversized_frames_never_processed_witness :
  max_size small_websocket < message_size five_bytes ∧
  ws_id small_websocket ∈ clients (self world1) ∧
  ∃ w', hstep small_websocket (HRecv [five_bytes]) world1 = (HDone (Returned tt), w') ∧
        trace w' = trace world1 ∧ clock w' = clock world1 ∧
        clients (self w') = clients (self world1) ∖ {[ws_id small_websocket]}.
Proof.
  assert (Hbig : max_size small_websocket < message_size five_bytes) by reflexivity.
  assert (Hin : ws_id small_websocket ∈ clients (self world1)).
  { apply elem_of_singleton. reflexivity. }
  split; [exact Hbig|]. split; [exact Hin|].
  exact (proj2 oversized_frames_never_processed small_websocket five_bytes [] world1
           Hbig Hin).
Defined.

(** C9 as stated fails: with two connections that each have a frame ready,
    the handlers take turns between reads and sends (first part: the
    connections of the events of a round-robin run, [None] for the detector),
    and under no schedule does any event follow the entry of a detector call
    before its exit. *)
Lemma inference_blocks_other_connection :
  event_conn <$> trace (l_world (start [alice; bob] round_robin world0)) =
    [Some 1%nat; None; None; Some 2%nat; None; None; Some 1%nat; Some 2%nat] ∧
  ¬ ∃ schedule pre ev post,
      trace (l_world (start [alice; bob] schedule world0)) =
        pre ++ EvModelEnter :: ev :: post ∧
      ev ≠ EvModelExit.
Proof.
  split; [vm_compute; reflexivity|].
  intros (schedule & pre & ev & post & Htr & Hev).
  destruct (run_loop_bracketed schedule (listen [alice; bob] world0)) as (evs & Hevs & Hb).
  unfold start in Htr. rewrite Hevs in Htr. simpl in Htr. subst evs.
  destruct (bracketed_enter _ pre (ev :: post) Hb eq_refl) as [post' Heq].
  by injection Heq.
Qed.

(** ** The further properties at work *)

Import ToyMain.

(** X3 at a frame whose second box has class 7, which has no label. *)
Lemma unknown_class_fails_whole_frame_witness :
  decode mixed_frame = Returned [Byte.x01; Byte.x03; Byte.x01] ∧
  detect (model (self world0)) [Byte.x01; Byte.x03; Byte.x01] = Returned mixed_results ∧
  boxes mixed_results = [ordered_box] ++ unlabelled_box :: [ordered_box] ∧
  Forall (λ b, is_Some (names mixed_results !! cls0 b)) [ordered_box] ∧
  names mixed_results !! cls0 unlabelled_box = None ∧
  (process_frame mixed_frame world0).1 =
    Returned (PyDict [("status", PyStr "error");
                      ("message", PyStr (pretty (cls0 unlabelled_box)));
                      ("detections", PyList [])]).
Proof.
  assert (H1 : decode mixed_frame = Returned [Byte.x01; Byte.x03; Byte.x01])
    by reflexivity.
  assert (H2 : detect (model (self world0)) [Byte.x01; Byte.x03; Byte.x01] =
               Returned mixed_results) by reflexivity.
  assert (H3 : boxes mixed_results = [ordered_box] ++ unlabelled_box :: [ordered_box])
    by reflexivity.
  assert (H4 : Forall (λ b, is_Some (names mixed_results !! cls0 b)) [ordered_box]).
  { constructor; [|constructor]. exists "person". vm_compute. reflexivity. }
  assert (H5 : names mixed_results !! cls0 unlabelled_box = None)
    by (vm_compute; reflexivity).
  do 5 (split; [assumption|]).
  exact (unknown_class_fails_whole_frame mixed_frame world0 _ mixed_results
           [ordered_box] unlabelled_box [ordered_box] H1 H2 H3 H4 H5).
Defined.

(** X4 at a frame in which the detector finds nothing. *)
Lemma no_boxes_empty_success_witness :
  decode blank_frame = Returned [Byte.x04] ∧
  detect (model (self world0)) [Byte.x04] = Returned blank_results ∧
  boxes blank_results = [] ∧
  ∃ w',
    process_frame blank_frame world0 =
      (Returned (PyDict [("status", PyStr "success");
                         ("detections", PyList []);
                         ("inference_time",
                          PyFloat (Float.sub64 (time_time (S (clock world0)))
                                               (time_time (clock world0))))]), w') ∧
    stdout w' = stdout world0 ∧ clock w' = S (S (clock world0)).
Proof.
  assert (H1 : decode blank_frame = Returned [Byte.x04]) by reflexivity.
  assert (H2 : detect (model (self world0)) [Byte.x04] = Returned blank_results)
    by reflexivity.
  assert (H3 : boxes blank_results = []) by reflexivity.
  do 3 (split; [assumption|]).
  exact (no_boxes_empty_success blank_frame world0 _ blank_results H1 H2 H3).
Defined.

(** X7 at a frame with two boxes, with a clock that reads 0 and then 1. *)
Lemma inference_time_not_negative_witness :
  (process_frame two_boxes world0).1 = Returned two_boxes_response ∧
  dict_get "status" two_boxes_response = Some (PyStr "success") ∧
  finite64 (time_time (clock world0)) = true ∧
  finite64 (time_time (S (clock world0))) = true ∧
  SFleb (time_time (clock world0)) (time_time (S (clock world0))) = true ∧
  ∃ t,
    dict_get "inference_time" two_boxes_response = Some (PyFloat t) ∧
    t = Float.sub64 (time_time (S (clock world0))) (time_time (clock world0)) ∧
    SFleb Float.zero t = true.
Proof.
  assert (H1 : (process_frame two_boxes world0).1 = Returned two_boxes_response)
    by (vm_compute; reflexivity).
  assert (H2 : dict_get "status" two_boxes_response = Some (PyStr "success"))
    by reflexivity.
  assert (H3 : finite64 (time_time (clock world0)) = true) by (vm_compute; reflexivity).
  assert (H4 : finite64 (time_time (S (clock world0))) = true)
    by (vm_compute; reflexivity).
  assert (H5 : SFleb (time_time (clock world0)) (time_time (S (clock world0))) = true)
    by (vm_compute; reflexivity).
  do 5 (split; [assumption|]).
  exact (inference_time_not_negative two_boxes world0 two_boxes_response H1 H2 H3 H4 H5).
Defined.

(** X8 at the same frame. *)
Lemma detections_carry_label_and_corner_witness :
  decode two_boxes = Returned [Byte.x01; Byte.x02] ∧
  detect (model (self world0)) [Byte.x01; Byte.x02] = Returned two_boxes_results ∧
  (process_frame two_boxes world0).1 = Returned two_boxes_response ∧
  dict_get "status" two_boxes_response = Some (PyStr "success") ∧
  ∃ detections,
    dict_get "detections" two_boxes_response = Some (PyList detections) ∧
    ∀ i box, boxes two_boxes_results !! i = Some box ->
      ∃ d label x y,
        detections !! i = Some d ∧
        names two_boxes_results !! cls0 box = Some label ∧
        dict_get "className" d = Some (PyStr label) ∧
        dict_get "x" d = Some (PyFloat x) ∧
        dict_get "y" d = Some (PyFloat y) ∧
        (Float.valid32 (xyxyn0 box).1.1.1 = true ->
         same_number (xyxyn0 box).1.1.1 x ∧ Float.valid64 x = true) ∧
        (Float.valid32 (xyxyn0 box).1.1.2 = true ->
         same_number (xyxyn0 box).1.1.2 y ∧ Float.valid64 y = true).
Proof.
  assert (H1 : decode two_boxes = Returned [Byte.x01; Byte.x02]) by reflexivity.
  assert (H2 : detect (model (self world0)) [Byte.x01; Byte.x02] =
               Returned two_boxes_results) by reflexivity.
  assert (H3 : (process_frame two_boxes world0).1 = Returned two_boxes_response)
    by (vm_compute; reflexivity).
  assert (H4 : dict_get "status" two_boxes_response = Some (PyStr "success"))
    by reflexivity.
  do 4 (split; [assumption|]).
  exact (detections_carry_label_and_corner two_boxes world0 _ two_boxes_results
           two_boxes_response H1 H2 H3 H4).
Defined.

(** X10 at a connection that delivers one frame and closes normally. *)
Lemma every_frame_is_answered_witness :
  (∀ k, ws_send_result (websocket 1 [two_boxes]) k = None) ∧
  Forall (λ m, transport_accepts (max_size (websocket 1 [two_boxes])) m = true)
    (ws_incoming (websocket 1 [two_boxes])) ∧
  ∃ evs ans,
    trace (handle_client (websocket 1 [two_boxes]) world0).2 = trace world0 ++ evs ∧
    conn_trace (ws_id (websocket 1 [two_boxes])) evs =
      exchanges (ws_id (websocket 1 [two_boxes])) ans ∧
    ans.*1 = ws_incoming (websocket 1 [two_boxes]) ∧
    Forall (λ mp, answers mp.1 mp.2) ans ∧
    (handle_client (websocket 1 [two_boxes]) world0).1 =
      match ws_close (websocket 1 [two_boxes]) with
      | None => Returned tt
      | Some e => if is_ConnectionClosed e then Returned tt else Raised e
      end.
Proof.
  assert (H1 : ∀ k, ws_send_result (websocket 1 [two_boxes]) k = None)
    by (intros k; reflexivity).
  assert (H2 : Forall (λ m, transport_accepts (max_size (websocket 1 [two_boxes])) m = true)
                 (ws_incoming (websocket 1 [two_boxes])))
    by (repeat constructor).
  do 2 (split; [assumption|]).
  exact (every_frame_is_answered (websocket 1 [two_boxes]) world0 H1 H2).
Defined.

(** X11 at the same connection. *)
Lemma disconnect_line_only_for_ConnectionClosed_witness :
  (∀ k, ws_send_result (websocket 1 [two_boxes]) k = None) ∧
  Forall (λ m, transport_accepts (max_size (websocket 1 [two_boxes])) m = true)
    (ws_incoming (websocket 1 [two_boxes])) ∧
  ∃ lines,
    stdout (handle_client (websocket 1 [two_boxes]) world0).2 =
      stdout world0 ++
        LogClientConnected (remote_address (websocket 1 [two_boxes])).1 :: lines ++
        match ws_close (websocket 1 [two_boxes]) with
        | Some e =>
            if is_ConnectionClosed e
            then [LogClientDisconnected (remote_address (websocket 1 [two_boxes])).1]
            else []
        | None => []
        end ∧
    forallb is_frame_log lines = true.
Proof.
  assert (H1 : ∀ k, ws_send_result (websocket 1 [two_boxes]) k = None)
    by (intros k; reflexivity).
  assert (H2 : Forall (λ m, transport_accepts (max_size (websocket 1 [two_boxes])) m = true)
                 (ws_incoming (websocket 1 [two_boxes])))
    by (repeat constructor).
  do 2 (split; [assumption|]).
  exact (disconnect_line_only_for_ConnectionClosed (websocket 1 [two_boxes]) world0 H1 H2).
Defined.

(** X12 at a registered connection whose peer is gone. *)
Lemma failed_send_ends_the_handler_witness :
  ws_send_result lossy_websocket (count_sent (ws_id lossy_websocket) (trace world1)) =
    Some lost ∧
  ws_id lossy_websocket ∈ clients (self world1) ∧
  ∃ w',
    hstep lossy_websocket (HSend "{}" [two_boxes]) world1 =
      (HDone (if is_ConnectionClosed lost then Returned tt else Raised lost), w') ∧
    trace w' = trace world1 ∧
    clients (self w') = clients (self world1) ∖ {[ws_id lossy_websocket]} ∧
    stdout w' = stdout world1 ++
      if is_ConnectionClosed lost
      then [LogClientDisconnected (remote_address lossy_websocket).1] else [].
Proof.
  assert (H1 : ws_send_result lossy_websocket
                 (count_sent (ws_id lossy_websocket) (trace world1)) = Some lost)
    by reflexivity.
  assert (H2 : ws_id lossy_websocket ∈ clients (self world1))
    by (apply elem_of_singleton; reflexivity).
  do 2 (split; [assumption|]).
  exact (failed_send_ends_the_handler lossy_websocket "{}" [two_boxes] lost world1 H1 H2).
Defined.

(** X13 at the first resumption of the handler of [alice], seen from the
    connection of [bob]. *)
Lemma resumption_leaves_other_connections_witness :
  l_tasks (listen [alice; bob] world0) !! 0%nat = Some alice_task ∧
  task_id alice_task ≠ 2%nat ∧
  conn_trace 2 (trace (l_world (loop_step (listen [alice; bob] world0) 0))) =
    conn_trace 2 (trace (l_world (listen [alice; bob] world0))).
Proof.
  assert (H1 : l_tasks (listen [alice; bob] world0) !! 0%nat = Some alice_task)
    by reflexivity.
  assert (H2 : task_id alice_task ≠ 2%nat) by (vm_compute; lia).
  do 2 (split; [assumption|]).
  exact (resumption_leaves_other_connections (listen [alice; bob] world0) 0 alice_task 2
           H1 H2).
Defined.

(** X14 at two peers that are served in turn: four resumptions each, for
    one frame each. *)
Lemma handler_ends_within_its_frames_witness :
  [alice; bob] !! 0%nat = Some alice ∧
  (2 * length (peer_frames alice) + 2 <= resumptions 0 round_robin)%nat ∧
  ∃ t r, l_tasks (start [alice; bob] round_robin world0) !! 0%nat = Some t ∧
         task_id t = peer_id alice ∧
         t_state t = HDone r.
Proof.
  assert (H1 : [alice; bob] !! 0%nat = Some alice) by reflexivity.
  assert (H2 : (2 * length (peer_frames alice) + 2 <= resumptions 0 round_robin)%nat)
    by (vm_compute; lia).
  do 2 (split; [assumption|]).
  exact (handler_ends_within_its_frames [alice; bob] round_robin world0 0 alice H1 H2).
Defined.

(** X15 at one peer with one frame and four resumptions. *)
Lemma lone_connection_is_served_sequentially_witness :
  (2 * length (peer_frames alice) + 2 <= 4)%nat ∧
  start [alice] (replicate 4 0%nat) world0 =
    {| l_world :=
         (handle_client (accept (10 * 1024 * 1024) alice)
            (print (LogBanner (port (self world0))) world0).2).2;
       l_tasks :=
         [{| t_ws := accept (10 * 1024 * 1024) alice;
             t_state :=
               HDone (handle_client (accept (10 * 1024 * 1024) alice)
                        (print (LogBanner (port (self world0))) world0).2).1 |}] |}.
Proof.
  assert (H1 : (2 * length (peer_frames alice) + 2 <= 4)%nat) by (vm_compute; lia).
  split; [assumption|].
  exact (lone_connection_is_served_sequentially alice 4 world0 H1).
Defined.

(** X16 at the default arguments on a machine without a GPU, with two
    peers that are served in turn. *)
Lemma clients_are_the_active_connections_witness :
  NoDup (peer_id <$> [alice; bob]) ∧
  main default_args [alice; bob] round_robin =
    ([LogUsingCPU], Returned (start [alice; bob] round_robin booted)) ∧
  ∀ id, id ∈ clients (self (l_world (start [alice; bob] round_robin booted))) ↔
        ∃ t, t ∈ l_tasks (start [alice; bob] round_robin booted) ∧
             task_id t = id ∧ is_active (t_state t) = true.
Proof.
  assert (H2 : main default_args [alice; bob] round_robin =
               ([LogUsingCPU], Returned (start [alice; bob] round_robin booted)))
    by reflexivity.
  split; [exact two_peers_distinct|]. split; [assumption|].
  exact (clients_are_the_active_connections default_args [alice; bob] round_robin
           [LogUsingCPU] (start [alice; bob] round_robin booted) two_peers_distinct H2).
Defined.
